(** * VoxDeck: the voice overlay of the Chrome extension

    A shallow embedding of [chrome_extension/popup.js] (the content-script
    part: audio analysis, visualizer animation, speech-recognition session,
    transcript display) and the properties of its specification.

    JavaScript numbers are embedded as real numbers: the arithmetic of
    [animate] is idealised (no rounding). Integers that index arrays are [Z]. *)

From Stdlib Require Import Reals Lra Lia ZifyNat ZArith List String Ascii Bool.
From stdpp Require Import base list.
Import ListNotations.

(** ** Audio analysis and visualizer animation ([animate]) *)

Module Audio.

Local Open Scope R_scope.

(** [Math.floor] on a real. *)
Definition Math_floor (x : R) : Z := Int_part x.

(** [Math.pow] at the arguments [animate] uses: a non-negative base and the
    positive exponent 1.2, where [Math.pow(0, y) = 0]. *)
Definition Math_pow (x y : R) : R :=
  if Rlt_dec 0 x then Rpower x y else 0.

(** The three running sums of the loop over [dataArray]. *)
Record Sums := mkSums { bassSum : R; midSum : R; trebleSum : R }.

(** The three band values computed after the loop. *)
Record Bands := mkBands { bassAvg : R; midAvg : R; trebleAvg : R }.

(** [const bassRange = Math.floor(dataArray.length * 0.1)] *)
Definition bassRange (len : nat) : Z := Math_floor (INR len * 0.1).

(** [const midRange = Math.floor(dataArray.length * 0.4)] *)
Definition midRange (len : nat) : Z := Math_floor (INR len * 0.4).

(** [for (let i = 0; i < dataArray.length; i++)]: the loop, started at index
    [i] on the remaining entries. *)
Fixpoint accumulate (bR mR : Z) (i : Z) (dataArray : list Z) (acc : Sums) : Sums :=
  match dataArray with
  | [] => acc
  | d :: rest =>
      let value := IZR d / 255 in
      accumulate bR mR (i + 1) rest
        (if (i <? bR)%Z then
           mkSums (bassSum acc + value) (midSum acc) (trebleSum acc)
         else if (i <? mR)%Z then
           mkSums (bassSum acc) (midSum acc + value) (trebleSum acc)
         else
           mkSums (bassSum acc) (midSum acc) (trebleSum acc + value))
  end.

(** The sampling step of a frame: from the frequency buffer to the three band
    values [bassAvg], [midAvg], [trebleAvg]. *)
Definition sampleBands (dataArray : list Z) : Bands :=
  let len := length dataArray in
  let bR := bassRange len in
  let mR := midRange len in
  let s := accumulate bR mR 0 dataArray (mkSums 0 0 0) in
  mkBands (Math_pow (bassSum s / IZR bR) 1.2 * 1.2)
          ((midSum s / IZR (mR - bR)) * 0.8)
          ((trebleSum s / IZR (Z.of_nat len - mR)) * 0.7).

(** [uniforms.baseColor]: the constructor's hex colour, later replaced by a
    colour set with [setHSL]. *)
Inductive Color :=
| Hex (rgb : Z)
| HSL (hue saturation lightness : R).

(** The mesh [visualizer] with the shader uniforms [animate] updates. *)
Record Visualizer := mkVisualizer {
  time : R;
  pulseIntensity : R;
  baseColor : Color;
  rotation_x : R;
  rotation_y : R;
  scale_x : R;
  scale_y : R;
  scale_z : R
}.

(** The mesh as [initThreeJS] builds it: uniforms from the source; rotation 0
    and scale 1 are the defaults of a new mesh. *)
Definition initVisualizer : Visualizer :=
  mkVisualizer 0 0 (Hex 0x3498db) 0 0 1 1 1.

(** [const targetPulse = Math.pow(bassAvg, 1.2) * 3.0 + midAvg * 1.2] *)
Definition targetPulse (b : Bands) : R :=
  Math_pow (bassAvg b) 1.2 * 3.0 + midAvg b * 1.2.

(** [const targetScale = 1 + (bassAvg * 0.3 + midAvg * 0.15)] *)
Definition targetScale (b : Bands) : R :=
  1 + (bassAvg b * 0.3 + midAvg b * 0.15).

(** The body of the [try] block of [animate], after
    [analyser.getByteFrequencyData(dataArray)] has filled [dataArray]. *)
Definition animate_update (dataArray : list Z) (v : Visualizer) : Visualizer :=
  let b := sampleBands dataArray in
  let currentPulse := pulseIntensity v in
  let hue := 0.6 + (bassAvg b * 0.15 + midAvg b * 0.2 + trebleAvg b * 0.3) * 0.5 in
  let saturation := 0.7 + (bassAvg b * 0.3) in
  let lightness := 0.5 + (midAvg b * 0.25 + trebleAvg b * 0.15) in
  let targetRotationSpeed := 0.001 + (bassAvg b * 0.015 + midAvg b * 0.008) in
  let currentScale := scale_x v in
  let newScale := currentScale + (targetScale b - currentScale) * 0.15 in
  mkVisualizer
    (time v + 0.03)
    (currentPulse + (targetPulse b - currentPulse) * 0.15)
    (HSL hue saturation lightness)
    (rotation_x v + targetRotationSpeed)
    (rotation_y v + targetRotationSpeed * 1.2)
    newScale newScale newScale.

(** One call of [animate]: the update runs only under the guard
    [analyser && isListening && visualizer?.material.uniforms]. *)
Definition animate (analyser isListening : bool) (dataArray : list Z)
    (visualizer : option Visualizer) : option Visualizer :=
  match visualizer with
  | Some v =>
      if analyser && isListening then Some (animate_update dataArray v)
      else Some v
  | None => None
  end.

(** [n] frames of [animate] on the same buffer content. *)
Fixpoint frames (n : nat) (analyser isListening : bool) (dataArray : list Z)
    (visualizer : option Visualizer) : option Visualizer :=
  match n with
  | O => visualizer
  | S k => animate analyser isListening dataArray
             (frames k analyser isListening dataArray visualizer)
  end.

(** *** The band description in the specification's words *)

(** Sum of the entries of a range, each normalized by 255. *)
Definition total (l : list Z) : R :=
  fold_right (fun d acc => IZR d / 255 + acc) 0 l.

(** Average of the normalized entries of a range. *)
Definition average (l : list Z) : R := total l / INR (length l).

(** The three contiguous ranges: the first 10% of the bins, the next 30%, the
    remaining 60% (bin counts rounded down). *)
Definition bassBins (data : list Z) : list Z :=
  firstn (length data / 10) data.
Definition midBins (data : list Z) : list Z :=
  firstn (4 * length data / 10 - length data / 10) (skipn (length data / 10) data).
Definition trebleBins (data : list Z) : list Z :=
  skipn (4 * length data / 10) data.

(** The claim's reading of the shaping: bass with exponent 1.2, mid and
    treble with gains 0.8 and 0.7. *)
Definition spec_bands (data : list Z) : Bands :=
  mkBands (Math_pow (average (bassBins data)) 1.2)
          (average (midBins data) * 0.8)
          (average (trebleBins data) * 0.7).

(** What the code computes, over the same ranges: the bass value carries the
    additional gain 1.2. *)
Definition shaped_bands (data : list Z) : Bands :=
  mkBands (Math_pow (average (bassBins data)) 1.2 * 1.2)
          (average (midBins data) * 0.8)
          (average (trebleBins data) * 0.7).

(** An entry of the [Uint8Array] buffer. *)
Definition is_byte (d : Z) : Prop := (0 <= d <= 255)%Z.

(** A frequency buffer of the analyser's size (1024 bins) with every bin at
    full magnitude. *)
Definition loudBuffer : list Z := repeat 255%Z 1024.

(** The mesh after [n] frames whose guard holds, the buffer content staying
    the same. *)
Definition after_frames (n : nat) (dataArray : list Z) (v : Visualizer) : Visualizer :=
  Nat.iter n (animate_update dataArray) v.

(** A run of [animate] over successive frames, each with its own flags and
    buffer content. *)
Definition run_frames (fs : list (bool * bool * list Z))
    (visualizer : option Visualizer) : option Visualizer :=
  fold_left (fun o '(analyser, isListening, dataArray) =>
               animate analyser isListening dataArray o) fs visualizer.

Definition uniform_scale (v : Visualizer) : Prop :=
  scale_x v = scale_y v /\ scale_y v = scale_z v.

End Audio.

(** ** The recognition session and the transcript display *)

Module Session.

(** The [state] attribute of an [AudioContext]. *)
Inductive ContextState := suspended | running.

(** Where a [webkitSpeechRecognition] object stands between its methods
    [start()], [stop()] and its events. *)
Inductive EngineStatus :=
| Inactive   (* created, or ended: not capturing *)
| Starting   (* start() accepted, the start event not yet delivered *)
| Active     (* start event delivered: capturing *)
| Stopping.  (* stop() requested or error raised: the end event is due *)

(** A child of [#voxdeck-text]. *)
Record Node := mkNode { className : string; textContent : string }.

(** [#voxdeck-container]: the record button (with or without the class
    [recording]) and the children of [#voxdeck-text], in document order. *)
Record Container := mkContainer { recording : bool; text : list Node }.

(** An async call parked at an [await] that the event loop resumes later. *)
Inductive Await :=
| InitAudio_in_initializeRecognition
    (* the record button's handler, inside initializeRecognition at
       [await initAudio()] (getUserMedia pending) *)
| InitAudio_in_startRecognition
    (* startRecognition at [await initAudio()] (getUserMedia pending) *)
| Resume_in_startRecognition (ctx : nat).
    (* startRecognition at [await audioContext.resume()] *)

(** The module-level variables of the content script, the objects they refer
    to, the browser's timer table, the parked async calls and the DOM. *)
Record State := mkState {
  recognition : option nat;        (* let recognition *)
  isListening : bool;              (* let isListening *)
  restartTimeout : option nat;     (* let restartTimeout *)
  audioContext : option nat;       (* let audioContext *)
  engines : list EngineStatus;     (* every recognition object created *)
  contexts : list ContextState;    (* every AudioContext created *)
  timers : list nat;               (* timeouts set, not yet fired or cleared *)
  nextTimer : nat;                 (* the handle the next setTimeout returns *)
  awaits : list Await;
  container : option Container
}.

Definition set_recognition (r : option nat) (s : State) : State :=
  mkState r (isListening s) (restartTimeout s) (audioContext s) (engines s)
    (contexts s) (timers s) (nextTimer s) (awaits s) (container s).
Definition set_isListening (b : bool) (s : State) : State :=
  mkState (recognition s) b (restartTimeout s) (audioContext s) (engines s)
    (contexts s) (timers s) (nextTimer s) (awaits s) (container s).
Definition set_restartTimeout (h : option nat) (s : State) : State :=
  mkState (recognition s) (isListening s) h (audioContext s) (engines s)
    (contexts s) (timers s) (nextTimer s) (awaits s) (container s).
Definition set_audioContext (c : option nat) (s : State) : State :=
  mkState (recognition s) (isListening s) (restartTimeout s) c (engines s)
    (contexts s) (timers s) (nextTimer s) (awaits s) (container s).
Definition set_engines (es : list EngineStatus) (s : State) : State :=
  mkState (recognition s) (isListening s) (restartTimeout s) (audioContext s) es
    (contexts s) (timers s) (nextTimer s) (awaits s) (container s).
Definition set_contexts (cs : list ContextState) (s : State) : State :=
  mkState (recognition s) (isListening s) (restartTimeout s) (audioContext s)
    (engines s) cs (timers s) (nextTimer s) (awaits s) (container s).
Definition set_timers (ts : list nat) (s : State) : State :=
  mkState (recognition s) (isListening s) (restartTimeout s) (audioContext s)
    (engines s) (contexts s) ts (nextTimer s) (awaits s) (container s).
Definition set_nextTimer (n : nat) (s : State) : State :=
  mkState (recognition s) (isListening s) (restartTimeout s) (audioContext s)
    (engines s) (contexts s) (timers s) n (awaits s) (container s).
Definition set_awaits (a : list Await) (s : State) : State :=
  mkState (recognition s) (isListening s) (restartTimeout s) (audioContext s)
    (engines s) (contexts s) (timers s) (nextTimer s) a (container s).
Definition set_container (c : option Container) (s : State) : State :=
  mkState (recognition s) (isListening s) (restartTimeout s) (audioContext s)
    (engines s) (contexts s) (timers s) (nextTimer s) (awaits s) c.

(** *** The browser objects *)

(** [recognition.start()]: accepted on an object that is not started;
    otherwise it throws ([None]). *)
Definition engine_start (e : nat) (s : State) : option State :=
  match engines s !! e with
  | Some Inactive => Some (set_engines (<[e := Starting]> (engines s)) s)
  | _ => None
  end.

(** [recognition.stop()]: asks a started object to end; no effect otherwise. *)
Definition engine_stop (e : nat) (s : State) : State :=
  match engines s !! e with
  | Some Starting | Some Active => set_engines (<[e := Stopping]> (engines s)) s
  | _ => s
  end.

(** [clearTimeout(h)] *)
Definition clearTimeout (h : option nat) (s : State) : State :=
  match h with
  | Some t => set_timers (filter (fun t' => t' <> t) (timers s)) s
  | None => s
  end.

(** [const RESTART_DELAY = 300] *)
Definition RESTART_DELAY : nat := 300.

(** [setTimeout(callback, delay)]: returns a fresh handle and records the
    timeout as set. The only callback the script passes is the restart
    callback of [recognition.onend]; time is not modelled, a set timeout fires
    with the event [TimerFired]. *)
Definition setTimeout (delay : nat) (s : State) : nat * State :=
  let t := nextTimer s in
  (t, set_nextTimer (S t) (set_timers (timers s ++ [t]) s)).

(** [document.querySelector('#voxdeck-record-button.recording')] is not null. *)
Definition recordingButton (s : State) : bool :=
  match container s with
  | Some c => recording c
  | None => false
  end.

(** [audioContext.state === 'suspended'], for a non-null [audioContext]. *)
Definition contextSuspended (s : State) : bool :=
  match audioContext s with
  | Some c => match contexts s !! c with
              | Some suspended => true
              | _ => false
              end
  | None => false
  end.

Definition park (a : Await) (s : State) : State :=
  set_awaits (awaits s ++ [a]) s.

(** *** The functions of the script *)

Section Script.

(** The [state] a newly constructed [AudioContext] reports, by creation
    order (the browser's autoplay policy decides it). *)
Variable newContextState : nat -> ContextState.

(** [updateRecordButtonState(isRecording)] *)
Definition updateRecordButtonState (isRecording : bool) (s : State) : State :=
  match container s with
  | Some c => set_container (Some (mkContainer isRecording (text c))) s
  | None => s
  end.

(** [initAudio()] up to [await navigator.mediaDevices.getUserMedia(...)]: a
    new context replaces [audioContext] (the analyser and [dataArray], which
    only [animate] reads, are left out). The settled request resumes the
    caller with [true], or with [false] when the microphone is refused. *)
Definition initAudio_begin (s : State) : State :=
  let c := length (contexts s) in
  set_audioContext (Some c) (set_contexts (contexts s ++ [newContextState c]) s).

(** [startRecognition()], from [if (recognition)] on. *)
Definition startRecognition_start (s : State) : State :=
  match recognition s with
  | Some e =>
      match engine_start e s with
      | Some s' => updateRecordButtonState true (set_isListening true s')
      | None => s   (* caught: 'Error starting recognition' *)
      end
  | None => s
  end.

(** [startRecognition()], from the second [if] on. *)
Definition startRecognition_resume (s : State) : State :=
  match audioContext s with
  | Some c =>
      if contextSuspended s then park (Resume_in_startRecognition c) s
      else startRecognition_start s
  | None => startRecognition_start s
  end.

(** [startRecognition()] *)
Definition startRecognition (s : State) : State :=
  match audioContext s with
  | Some _ =>
      if contextSuspended s
      then park InitAudio_in_startRecognition (initAudio_begin s)
      else startRecognition_resume s
  | None => park InitAudio_in_startRecognition (initAudio_begin s)
  end.

(** [stopRecognition()]; the context is taken to be suspended at once. *)
Definition stopRecognition (s : State) : State :=
  let s1 := match recognition s with
            | Some e => engine_stop e s
            | None => s
            end in
  let s2 := match audioContext s1 with
            | Some c => set_contexts (<[c := suspended]> (contexts s1)) s1
            | None => s1
            end in
  updateRecordButtonState false (set_isListening false s2).

(** [initializeRecognition()] up to [await initAudio()]. *)
Definition initializeRecognition_begin (s : State) : State :=
  let s1 := match recognition s with
            | Some e => set_recognition None (engine_stop e s)
            | None => s
            end in
  park InitAudio_in_initializeRecognition (initAudio_begin s1).

(** [initializeRecognition()] after [await initAudio()]: the new recognition
    object and the returned flag. *)
Definition initializeRecognition_resume (audioInitialized : bool) (s : State)
  : State * bool :=
  if audioInitialized then
    let e := length (engines s) in
    (set_recognition (Some e) (set_engines (engines s ++ [Inactive]) s), true)
  else (s, false).

(** The click listener of the record button. *)
Definition recordButton_click (s : State) : State :=
  if isListening s then stopRecognition s else initializeRecognition_begin s.

Definition recordButton_click_resume (audioInitialized : bool) (s : State) : State :=
  let '(s', initialized) := initializeRecognition_resume audioInitialized s in
  if initialized then startRecognition s' else s'.

(** The click listener of the close button. *)
Definition closeButton_click (s : State) : State :=
  set_container None (stopRecognition s).

(** [createOrUpdateDisplay()]: an existing container is returned as it is. *)
Definition createOrUpdateDisplay (s : State) : State :=
  match container s with
  | Some _ => s
  | None => set_container (Some (mkContainer false [])) s
  end.

(** [recognition.onstart] *)
Definition recognition_onstart (s : State) : State :=
  updateRecordButtonState true (set_isListening true s).

(** The callback [recognition.onend] passes to [setTimeout]. *)
Definition restart_callback (s : State) : State :=
  if recordingButton s then startRecognition s else s.

(** [recognition.onend] *)
Definition recognition_onend (s : State) : State :=
  let s1 := updateRecordButtonState false (set_isListening false s) in
  if recordingButton s1 then
    let s2 := clearTimeout (restartTimeout s1) s1 in
    let '(t, s3) := setTimeout RESTART_DELAY s2 in
    set_restartTimeout (Some t) s3
  else s1.

(** [recognition.onerror] *)
Definition recognition_onerror (s : State) : State :=
  updateRecordButtonState false (set_isListening false s).

(** A JavaScript string used as a condition. *)
Definition truthy (t : string) : bool :=
  match t with
  | EmptyString => false
  | _ => true
  end.

Definition is_interim (n : Node) : bool := String.eqb (className n) "interim-text"%string.

(** Assigns [textContent] of the first [.interim-text] node. *)
Fixpoint set_interim (interimText : string) (nodes : list Node) : list Node :=
  match nodes with
  | [] => []
  | n :: rest =>
      if is_interim n then mkNode "interim-text"%string interimText :: rest
      else n :: set_interim interimText rest
  end.

(** [appendTranscript(finalText, interimText)] on the children of the
    display. *)
Definition appendTranscript_nodes (finalText interimText : string)
    (nodes : list Node) : list Node :=
  let nodes1 := if truthy finalText
                then nodes ++ [mkNode "final-text"%string finalText]
                else nodes in
  if existsb is_interim nodes1 then set_interim interimText nodes1
  else nodes1 ++ [mkNode "interim-text"%string interimText].

(** [appendTranscript(finalText, interimText)] *)
Definition appendTranscript (finalText interimText : string) (s : State) : State :=
  match container s with
  | Some c =>
      set_container
        (Some (mkContainer (recording c)
                 (appendTranscript_nodes finalText interimText (text c)))) s
  | None => s
  end.

(** The loop of [recognition.onresult] over [event.results] from
    [event.resultIndex]: each result is its first alternative's transcript and
    its [isFinal] flag. *)
Definition transcripts (resultIndex : nat) (results : list (string * bool))
  : string * string :=
  fold_left
    (fun '(finalTranscript, interimTranscript) '(transcript, isFinal) =>
       if (isFinal : bool) then (String.append finalTranscript transcript, interimTranscript)
       else (finalTranscript, String.append interimTranscript transcript))
    (drop resultIndex results) (EmptyString, EmptyString).

(** [recognition.onresult] *)
Definition recognition_onresult (resultIndex : nat)
    (results : list (string * bool)) (s : State) : State :=
  let '(finalTranscript, interimTranscript) := transcripts resultIndex results in
  if truthy finalTranscript || truthy interimTranscript
  then appendTranscript finalTranscript interimTranscript s
  else s.

(** *** The event loop *)

Inductive Event :=
| RecordClick
| CloseClick
| Message_updateDisplay
| Message_startListening
| Message_stopListening
| Resolved (k : nat) (ok : bool)    (* the k-th parked await settles *)
| Engine_start (e : nat)
| Engine_end (e : nat)
| Engine_error (e : nat)
| Engine_result (e : nat) (resultIndex : nat) (results : list (string * bool))
| TimerFired (t : nat).

(** Resumes a parked call with the outcome of what it awaited. *)
Definition resume (a : Await) (ok : bool) (s : State) : State :=
  match a with
  | InitAudio_in_initializeRecognition => recordButton_click_resume ok s
  | InitAudio_in_startRecognition =>
      if ok then startRecognition_resume s else s
  | Resume_in_startRecognition c =>
      if ok then startRecognition_start
                   (set_contexts (<[c := running]> (contexts s)) s)
      else s
  end.

(** One task of the event loop; [None] when the event cannot occur in [s]:
    a click needs the container; an await resumes once; an engine delivers
    its start event after an accepted [start()], its end event once per run
    (after [stop()], after an error, or on its own), results while capturing;
    a timeout fires if it is set. The handlers stay attached to an engine the
    script no longer holds. *)
Definition handle (ev : Event) (s : State) : option State :=
  match ev with
  | RecordClick =>
      match container s with
      | Some _ => Some (recordButton_click s)
      | None => None
      end
  | CloseClick =>
      match container s with
      | Some _ => Some (closeButton_click s)
      | None => None
      end
  | Message_updateDisplay => Some (createOrUpdateDisplay s)
  | Message_startListening => Some (startRecognition s)
  | Message_stopListening => Some (stopRecognition s)
  | Resolved k ok =>
      match awaits s !! k with
      | Some a => Some (resume a ok (set_awaits (delete k (awaits s)) s))
      | None => None
      end
  | Engine_start e =>
      match engines s !! e with
      | Some Starting =>
          Some (recognition_onstart (set_engines (<[e := Active]> (engines s)) s))
      | _ => None
      end
  | Engine_end e =>
      match engines s !! e with
      | Some Starting | Some Active | Some Stopping =>
          Some (recognition_onend (set_engines (<[e := Inactive]> (engines s)) s))
      | _ => None
      end
  | Engine_error e =>
      match engines s !! e with
      | Some Starting | Some Active | Some Stopping =>
          Some (recognition_onerror (set_engines (<[e := Stopping]> (engines s)) s))
      | _ => None
      end
  | Engine_result e resultIndex results =>
      match engines s !! e with
      | Some Active | Some Stopping =>
          Some (recognition_onresult resultIndex results s)
      | _ => None
      end
  | TimerFired t =>
      if bool_decide (t ∈ timers s)
      then Some (restart_callback
                   (set_timers (filter (fun t' => t' <> t) (timers s)) s))
      else None
  end.

(** An event that cannot occur leaves the state as it is. *)
Definition step (ev : Event) (s : State) : State :=
  default s (handle ev s).

Definition run (trace : list Event) (s : State) : State :=
  fold_left (fun s ev => step ev s) trace s.

End Script.

(** The script once loaded: [createOrUpdateDisplay] has built the container. *)
Definition init : State :=
  mkState None false None None [] [] [] 0 [] (Some (mkContainer false [])).

(** The content of [#voxdeck-text] as read in document order. *)
Definition transcript (s : State) : list Node :=
  match container s with
  | Some c => text c
  | None => []
  end.

Definition view (s : State) : string :=
  fold_right (fun n acc => String.append (textContent n) acc) EmptyString (transcript s).

(** A started engine: capturing, or about to, and not asked to stop. *)
Definition is_started (status : EngineStatus) : bool :=
  match status with
  | Starting | Active => true
  | _ => false
  end.

(** An engine is live when the script holds it or when it is started. *)
Definition live (s : State) (e : nat) : bool :=
  match engines s !! e with
  | Some status => bool_decide (recognition s = Some e) || is_started status
  | None => false
  end.

Definition live_engines (s : State) : list nat :=
  filter (fun e => live s e = true) (seq 0 (length (engines s))).

(** A record-button click is still inside [initializeRecognition], at
    [await initAudio()]. *)
Definition is_init (a : Await) : bool :=
  match a with
  | InitAudio_in_initializeRecognition => true
  | _ => false
  end.

Definition initializing (s : State) : bool := existsb is_init (awaits s).

Fixpoint init_count (l : list Await) : nat :=
  match l with
  | [] => 0
  | a :: rest => (if is_init a then 1 else 0) + init_count rest
  end.

(** A trace in which no record-button click arrives while an earlier click
    is still inside [initializeRecognition]. *)
Fixpoint sequenced (env : nat -> ContextState) (trace : list Event) (s : State)
  : bool :=
  match trace with
  | [] => true
  | ev :: rest =>
      match ev with
      | RecordClick => negb (initializing s)
      | _ => true
      end && sequenced env rest (step env ev s)
  end.

(** Only the engine the script holds can be started. *)
Definition held_only (r : option nat) (es : list EngineStatus) : Prop :=
  forall e st, es !! e = Some st -> is_started st = true -> r = Some e.

(** The invariant of sequenced traces, on [recognition], [engines] and
    [awaits]. *)
Definition sequential3 (r : option nat) (es : list EngineStatus)
    (aw : list Await) : Prop :=
  held_only r es /\ (existsb is_init aw = true -> r = None) /\ init_count aw <= 1.

Definition sequential (s : State) : Prop :=
  sequential3 (recognition s) (engines s) (awaits s).

(** Some engine has accepted [start()] and not yet delivered its start
    event. *)
Definition is_Starting (status : EngineStatus) : bool :=
  match status with
  | Starting => true
  | _ => false
  end.

Definition start_pending (s : State) : bool := existsb is_Starting (engines s).

(** The events by which the caller asks for a start: the record button and
    the [startListening] message. All other events are quiet. *)
Definition quiet (ev : Event) : bool :=
  match ev with
  | RecordClick | Message_startListening => false
  | _ => true
  end.

(** The events that leave the children of [#voxdeck-text] alone: all but a
    recognition result and the close button, which removes the container. *)
Definition keeps_transcript (ev : Event) : bool :=
  match ev with
  | CloseClick | Engine_result _ _ _ => false
  | _ => true
  end.

(** The claim's transcript view, over the updates passed to
    [appendTranscript] in arrival order: all final fragments, then the
    current interim fragment. *)
Definition spec_view (updates : list (string * string)) : string :=
  String.append (String.concat EmptyString (map fst updates))
                (List.last (map snd updates) EmptyString).


(** Every new [AudioContext] starts out running. *)
Definition contextsRun (_ : nat) : ContextState := running.

(** What holds of a session that nobody is starting, [n] timeouts having been
    set so far. *)
Record idle (n : nat) (s : State) : Prop := mkIdle {
  idle_listening : isListening s = false;
  idle_button : recordingButton s = false;
  idle_awaits : awaits s = [];
  idle_engines : start_pending s = false;
  idle_timer : nextTimer s = n
}.

(** A session in which the engine reports an interim result, then a final
    one, then the next interim result. *)
Definition heard : list Event :=
  [RecordClick; Resolved 0 true; Engine_start 0;
   Engine_result 0 0 [("wor"%string, false)];
   Engine_result 0 0 [("world"%string, true)];
   Engine_result 0 1 [("world"%string, true); ("next"%string, false)]].


(** A session that is listening. *)
Definition listening : State :=
  run contextsRun [RecordClick; Resolved 0 true; Engine_start 0] init.

End Session.

(** ** Further vocabulary for the visualizer *)

Module Visual.
Import Audio.
Local Open Scope R_scope.

(** A buffer [animate] can sample: bytes, and enough bins for each of the
    three ranges to be non-empty. *)
Definition sampled (data : list Z) : Prop :=
  Forall is_byte data /\ (10 <= length data)%nat.

(** [const targetRotationSpeed = 0.001 + (bassAvg * 0.015 + midAvg * 0.008)] *)
Definition targetRotationSpeed (b : Bands) : R :=
  0.001 + (bassAvg b * 0.015 + midAvg b * 0.008).

(** The largest value [targetPulse] takes: at [bassAvg = 1.2], [midAvg = 0.8]. *)
Definition maxPulse : R := Math_pow 1.2 1.2 * 3.0 + 0.8 * 1.2.

(** A buffer with no signal. *)
Definition silent (data : list Z) : Prop := Forall (fun d => d = 0%Z) data.

(** One buffer is at least as loud as another, bin by bin. *)
Definition louder (quiet loud : list Z) : Prop := Forall2 Z.le quiet loud.

(** A buffer of the analyser's size with no signal. *)
Definition silentBuffer : list Z := repeat 0%Z 1024.

End Visual.

(** ** Further vocabulary for the session *)

Module SessionMore.
Import Session.

(** Every event but a click on the record button. *)
Definition no_click (ev : Event) : bool :=
  match ev with
  | RecordClick => false
  | _ => true
  end.

(** Every event but the close button, which removes the container. *)
Definition keeps_panel (ev : Event) : bool :=
  match ev with
  | CloseClick => false
  | _ => true
  end.

(** An engine that the script does not hold and that is not started. *)
Definition released (s : State) (e : nat) : bool :=
  bool_decide (recognition s <> Some e)
  && match engines s !! e with
     | Some status => negb (is_started status)
     | None => false
     end.

(** A session whose engine has reported an error. *)
Definition failed : State := step contextsRun (Engine_error 0) listening.

(** What holds as long as the record button has not been clicked. *)
Definition unclicked (s : State) : Prop :=
  engines s = [] /\ recognition s = None /\ isListening s = false /\
  initializing s = false.

(** The held engine is one of the engines created, and [e] is released. *)
Definition let_go (e : nat) (r : option nat) (es : list EngineStatus) : Prop :=
  (forall h, r = Some h -> h < length es) /\
  r <> Some e /\
  exists st, es !! e = Some st /\ is_started st = false.

End SessionMore.

(** ** Further vocabulary for the transcript display *)

Module Transcript.
Import Session.

(** The texts of a list of nodes, read in order. *)
Definition join (l : list string) : string := fold_right String.append EmptyString l.

(** [display.textContent] *)
Definition view_nodes (nodes : list Node) : string := join (map textContent nodes).

(** The children with the class [interim-text], and the others. *)
Definition interim_nodes (nodes : list Node) : list Node := List.filter is_interim nodes.
Definition final_nodes (nodes : list Node) : list Node :=
  List.filter (fun n => negb (is_interim n)) nodes.

(** Successive calls of [appendTranscript] on the children of the display. *)
Definition append_all (updates : list (string * string)) (nodes : list Node)
  : list Node :=
  fold_left (fun ns '(finalText, interimText) =>
               appendTranscript_nodes finalText interimText ns) updates nodes.

(** The final texts that produce a node: the non-empty ones. *)
Definition committed (updates : list (string * string)) : list string :=
  List.filter truthy (map fst updates).

(** The transcripts of the final results and of the interim results among
    [event.results] from [event.resultIndex] on. *)
Definition final_results (resultIndex : nat) (results : list (string * bool))
  : list string :=
  map fst (List.filter snd (drop resultIndex results)).
Definition interim_results (resultIndex : nat) (results : list (string * bool))
  : list string :=
  map fst (List.filter (fun r => negb (snd r)) (drop resultIndex results)).

End Transcript.

(** ** Dragging and resizing the panel ([createOrUpdateDisplay]) *)

Module Panel.

Local Open Scope R_scope.

(** [pos.includes(c)] for a one-character [c]. *)
Fixpoint includes (pos : string) (c : ascii) : bool :=
  match pos with
  | EmptyString => false
  | String a rest => Ascii.eqb a c || includes rest c
  end.

(** [const handles = ['n', 'e', 's', 'w', 'ne', 'nw', 'se', 'sw']] *)
Definition handles : list string :=
  ["n"; "e"; "s"; "w"; "ne"; "nw"; "se"; "sw"]%string.

(** The box of [#voxdeck-container] in the viewport. *)
Record Box := mkBox {
  offsetLeft : R;
  offsetTop : R;
  offsetWidth : R;
  offsetHeight : R
}.

(** [window.innerWidth] and [window.innerHeight]. *)
Record Viewport := mkViewport { innerWidth : R; innerHeight : R }.

(** [let isDragging, initialX, initialY] *)
Record Drag := mkDrag { isDragging : bool; initialX : R; initialY : R }.

(** The header's [mousedown] listener. *)
Definition header_mousedown (clientX clientY : R) (box : Box) : Drag :=
  mkDrag true (clientX - offsetLeft box) (clientY - offsetTop box).

(** The first [mousemove] listener of the document: the box it gives the
    container. *)
Definition drag_mousemove (w : Viewport) (clientX clientY : R) (d : Drag)
    (box : Box) : Box :=
  if isDragging d then
    let currentX := clientX - initialX d in
    let currentY := clientY - initialY d in
    let maxX := innerWidth w - offsetWidth box in
    let maxY := innerHeight w - offsetHeight box in
    mkBox (Rmax 0 (Rmin currentX maxX)) (Rmax 0 (Rmin currentY maxY))
          (offsetWidth box) (offsetHeight box)
  else box.

(** The first [mouseup] listener of the document. *)
Definition drag_mouseup (d : Drag) : Drag :=
  mkDrag false (initialX d) (initialY d).

(** [let isResizing, currentHandle, originalWidth, ...] *)
Record Resize := mkResize {
  isResizing : bool;
  currentHandle : string;
  originalWidth : R;
  originalHeight : R;
  originalX : R;
  originalY : R;
  originalLeft : R;
  originalTop : R
}.

(** The [mousedown] listener of the resize handle [pos]. *)
Definition handle_mousedown (pos : string) (clientX clientY : R) (rect : Box) : Resize :=
  mkResize true pos (offsetWidth rect) (offsetHeight rect) clientX clientY
           (offsetLeft rect) (offsetTop rect).

(** One axis of the second [mousemove] listener: the handle letter that grows
    the box ([e] or [s]), the one that moves its origin ([w] or [n]), the
    minimum size and the viewport's extent; the new origin and size. *)
Definition resize_axis (grows moves : bool) (minimum extent : R)
    (original origin delta : R) : R * R :=
  let size1 := if grows then Rmax minimum (original + delta) else original in
  let '(size2, origin2) :=
    if moves then
      let proposed := Rmax minimum (original - delta) in
      if Req_dec_T proposed size1 then (size1, origin)
      else (proposed, origin + (original - proposed))
    else (size1, origin) in
  (origin2, Rmin size2 (extent - origin2)).

(** The second [mousemove] listener of the document: the box it gives the
    container. *)
Definition resize_mousemove (w : Viewport) (clientX clientY : R) (r : Resize)
    (box : Box) : Box :=
  if isResizing r then
    let deltaX := clientX - originalX r in
    let deltaY := clientY - originalY r in
    let '(newLeft, newWidth) :=
      resize_axis (includes (currentHandle r) "e") (includes (currentHandle r) "w")
        250 (innerWidth w) (originalWidth r) (originalLeft r) deltaX in
    let '(newTop, newHeight) :=
      resize_axis (includes (currentHandle r) "s") (includes (currentHandle r) "n")
        200 (innerHeight w) (originalHeight r) (originalTop r) deltaY in
    mkBox newLeft newTop newWidth newHeight
  else box.

(** The second [mouseup] listener of the document. *)
Definition resize_mouseup (r : Resize) : Resize :=
  mkResize false EmptyString (originalWidth r) (originalHeight r) (originalX r)
           (originalY r) (originalLeft r) (originalTop r).

(** The box lies inside the viewport on its right and bottom sides and has
    at least the minimum size. *)
Definition fits (w : Viewport) (box : Box) : Prop :=
  250 <= offsetWidth box /\ 200 <= offsetHeight box /\
  offsetLeft box + offsetWidth box <= innerWidth w /\
  offsetTop box + offsetHeight box <= innerHeight w.

End Panel.

(** ** The popup page (the [DOMContentLoaded] listener of the popup) *)

Module Popup.
Import Session.
Local Open Scope string_scope.

(** [let recognition], the text of [#startButton] and of [#transcript]. *)
Record Page := mkPage {
  recognition : option EngineStatus;
  startButton : string;
  transcriptText : string
}.

(** [initializeSpeechRecognition()]: creates the object once. *)
Definition initializeSpeechRecognition (p : Page) : Page :=
  match recognition p with
  | None => mkPage (Some Inactive) (startButton p) (transcriptText p)
  | Some _ => p
  end.

(** The click listener of [#startButton]. [recognition.start()] throws on a
    started object; the listener then ends before it relabels the button. *)
Definition startButton_click (p : Page) : Page :=
  let p1 := initializeSpeechRecognition p in
  if String.eqb (startButton p1) "Start Recording" then
    match recognition p1 with
    | Some Inactive => mkPage (Some Starting) "Stop Recording" (transcriptText p1)
    | _ => p1
    end
  else
    mkPage (match recognition p1 with
            | Some Starting | Some Active => Some Stopping
            | r => r
            end) "Start Recording" (transcriptText p1).

(** [recognition.onresult]: the text of the results from [resultIndex] on
    replaces the transcript. *)
Definition onresult (resultIndex : nat) (results : list string) (p : Page) : Page :=
  mkPage (recognition p) (startButton p)
    (fold_left String.append (drop resultIndex results) EmptyString).

(** [recognition.onerror] *)
Definition onerror (error : string) (p : Page) : Page :=
  mkPage (recognition p) "Start Recording" (String.append "Error: " error).

(** [recognition.onend] *)
Definition onend (p : Page) : Page :=
  mkPage (recognition p) "Start Recording" (transcriptText p).

Inductive Event :=
| Click
| Started
| Result (resultIndex : nat) (results : list string)
| Error (error : string)
| Ended.

Definition set_status (st : EngineStatus) (p : Page) : Page :=
  mkPage (Some st) (startButton p) (transcriptText p).

(** One task of the popup's event loop; an engine event occurs only in a
    status that allows it, as in [Session.handle]. *)
Definition step (ev : Event) (p : Page) : Page :=
  match ev, recognition p with
  | Click, _ => startButton_click p
  | Started, Some Starting => set_status Active p
  | Result i rs, Some Active | Result i rs, Some Stopping => onresult i rs p
  | Error e, Some Starting | Error e, Some Active | Error e, Some Stopping =>
      onerror e (set_status Stopping p)
  | Ended, Some Starting | Ended, Some Active | Ended, Some Stopping =>
      onend (set_status Inactive p)
  | _, _ => p
  end.

Definition run (trace : list Event) (p : Page) : Page :=
  fold_left (fun p ev => step ev p) trace p.

(** The page when its listeners are registered, with the label the markup
    gives the button. *)
Definition loaded (label : string) : Page := mkPage None label EmptyString.

(** The button offers to stop only while the engine is started. *)
Definition label_sound (p : Page) : Prop :=
  startButton p = "Stop Recording" ->
  exists st, recognition p = Some st /\ is_started st = true.

End Popup.

(** ** Facts about the audio analysis *)

(** [lia] with division and modulo by constants. *)
Ltac Zify.zify_post_hook ::= Z.to_euclidean_division_equations.

Section AudioFacts.
Import Audio.
Local Open Scope R_scope.

Lemma bassRange_div (len : nat) : bassRange len = (Z.of_nat len / 10)%Z.
Proof.
  unfold bassRange, Math_floor. symmetry. apply Int_part_spec.
  rewrite INR_IZR_INZ.
  pose proof (Z.div_mod (Z.of_nat len) 10 ltac:(lia)) as E.
  pose proof (Z.mod_pos_bound (Z.of_nat len) 10 ltac:(lia)) as [L U].
  set (q := (Z.of_nat len / 10)%Z) in *.
  set (r := (Z.of_nat len mod 10)%Z) in *.
  rewrite E, plus_IZR, mult_IZR.
  apply IZR_le in L. apply IZR_lt in U. lra.
Qed.

Lemma midRange_div (len : nat) : midRange len = (4 * Z.of_nat len / 10)%Z.
Proof.
  unfold midRange, Math_floor. symmetry. apply Int_part_spec.
  rewrite INR_IZR_INZ.
  pose proof (Z.div_mod (4 * Z.of_nat len) 10 ltac:(lia)) as E.
  pose proof (Z.mod_pos_bound (4 * Z.of_nat len) 10 ltac:(lia)) as [L U].
  set (q := (4 * Z.of_nat len / 10)%Z) in *.
  set (r := ((4 * Z.of_nat len) mod 10)%Z) in *.
  apply (f_equal IZR) in E. rewrite plus_IZR, !mult_IZR in E.
  apply IZR_le in L. apply IZR_lt in U. lra.
Qed.

Lemma ranges_ordered (len : nat) :
  (0 <= bassRange len <= midRange len)%Z /\ (midRange len <= Z.of_nat len)%Z.
Proof.
  rewrite bassRange_div, midRange_div.
  pose proof (Z.div_mod (Z.of_nat len) 10 ltac:(lia)).
  pose proof (Z.mod_pos_bound (Z.of_nat len) 10 ltac:(lia)).
  pose proof (Z.div_mod (4 * Z.of_nat len) 10 ltac:(lia)).
  pose proof (Z.mod_pos_bound (4 * Z.of_nat len) 10 ltac:(lia)).
  lia.
Qed.

Lemma total_cons (d : Z) (l : list Z) : total (d :: l) = IZR d / 255 + total l.
Proof. reflexivity. Qed.

(** The loop adds to each running sum the total of one contiguous range. *)
Lemma accumulate_ranges (bR mR : Z) (data : list Z) :
  (bR <= mR)%Z ->
  forall (i : Z) (acc : Sums),
    let s := accumulate bR mR i data acc in
    bassSum s = bassSum acc + total (firstn (Z.to_nat (bR - i)) data) /\
    midSum s = midSum acc
               + total (firstn (Z.to_nat (mR - Z.max bR i))
                          (skipn (Z.to_nat (bR - i)) data)) /\
    trebleSum s = trebleSum acc + total (skipn (Z.to_nat (mR - i)) data).
Proof.
  intros Hle. induction data as [|d rest IH]; intros i acc; cbn zeta.
  - cbn [accumulate]. rewrite !firstn_nil, !skipn_nil, firstn_nil. cbn. lra.
  - cbn [accumulate]. destruct (IH (i + 1)%Z
      (if (i <? bR)%Z then mkSums (bassSum acc + IZR d / 255) (midSum acc) (trebleSum acc)
       else if (i <? mR)%Z then mkSums (bassSum acc) (midSum acc + IZR d / 255) (trebleSum acc)
       else mkSums (bassSum acc) (midSum acc) (trebleSum acc + IZR d / 255)))
      as (Hb & Hm & Ht).
    rewrite Hb, Hm, Ht. clear IH Hb Hm Ht.
    destruct (Z.ltb_spec i bR) as [Hib|Hib].
    + (* a bass bin *)
      replace (Z.to_nat (bR - i)) with (S (Z.to_nat (bR - (i + 1)))) by lia.
      replace (Z.to_nat (mR - i)) with (S (Z.to_nat (mR - (i + 1)))) by lia.
      replace (Z.max bR (i + 1)) with (Z.max bR i) by lia.
      cbn [bassSum midSum trebleSum firstn skipn];
      rewrite ?skipn_O, ?total_cons; repeat split; lra.
    + destruct (Z.ltb_spec i mR) as [Him|Him].
      * (* a mid bin *)
        replace (Z.to_nat (bR - i)) with O by lia.
        replace (Z.to_nat (bR - (i + 1))) with O by lia.
        replace (Z.to_nat (mR - Z.max bR i))
          with (S (Z.to_nat (mR - Z.max bR (i + 1)))) by lia.
        replace (Z.to_nat (mR - i)) with (S (Z.to_nat (mR - (i + 1)))) by lia.
        cbn [bassSum midSum trebleSum firstn skipn];
      rewrite ?skipn_O, ?total_cons; repeat split; lra.
      * (* a treble bin *)
        replace (Z.to_nat (bR - i)) with O by lia.
        replace (Z.to_nat (bR - (i + 1))) with O by lia.
        replace (Z.to_nat (mR - Z.max bR i)) with O by lia.
        replace (Z.to_nat (mR - Z.max bR (i + 1))) with O by lia.
        replace (Z.to_nat (mR - i)) with O by lia.
        replace (Z.to_nat (mR - (i + 1))) with O by lia.
        cbn [bassSum midSum trebleSum firstn skipn];
      rewrite ?skipn_O, ?total_cons; repeat split; lra.
Qed.

End AudioFacts.

Section BandFacts.
Import Audio.
Local Open Scope R_scope.

Lemma bins_partition (data : list Z) :
  data = bassBins data ++ midBins data ++ trebleBins data.
Proof.
  unfold bassBins, midBins, trebleBins.
  set (b := (length data / 10)%nat). set (m := (4 * length data / 10)%nat).
  assert (Hbm : (b <= m)%nat) by (subst b m; lia).
  rewrite <- (firstn_skipn b data) at 1. f_equal.
  rewrite <- (firstn_skipn (m - b) (skipn b data)) at 1. f_equal.
  rewrite skipn_skipn. f_equal. lia.
Qed.

Lemma bins_length (data : list Z) :
  length (bassBins data) = (length data / 10)%nat /\
  length (midBins data) = (4 * length data / 10 - length data / 10)%nat /\
  length (trebleBins data) = (length data - 4 * length data / 10)%nat.
Proof.
  unfold bassBins, midBins, trebleBins.
  rewrite !length_firstn, !length_skipn. lia.
Qed.

(** The loop of [animate] computes the shaped averages of the three ranges. *)
Lemma sampleBands_shaped (data : list Z) : sampleBands data = shaped_bands data.
Proof.
  unfold sampleBands, shaped_bands.
  destruct (ranges_ordered (length data)) as [[H0 Hbm] Hmn].
  destruct (accumulate_ranges (bassRange (length data)) (midRange (length data))
              data Hbm 0%Z (mkSums 0 0 0)) as (Hb & Hm & Ht).
  cbn zeta in Hb, Hm, Ht. rewrite Hb, Hm, Ht. clear Hb Hm Ht.
  cbn [bassSum midSum trebleSum]. rewrite !Rplus_0_l.
  destruct (bins_length data) as (Lb & Lm & Lt).
  unfold average. rewrite Lb, Lm, Lt. unfold bassBins, midBins, trebleBins.
  revert H0 Hbm Hmn. rewrite bassRange_div, midRange_div. intros H0 Hbm Hmn.
  assert (Eb : (Z.of_nat (length data) / 10)%Z = Z.of_nat (length data / 10))
    by (rewrite Nat2Z.inj_div; reflexivity).
  assert (Em : (4 * Z.of_nat (length data) / 10)%Z = Z.of_nat (4 * length data / 10))
    by (rewrite Nat2Z.inj_div, Nat2Z.inj_mul; reflexivity).
  rewrite Eb, Em in *. rewrite Z.max_l by lia. rewrite !Z.sub_0_r, !Nat2Z.id.
  replace (Z.to_nat (Z.of_nat (4 * length data / 10) - Z.of_nat (length data / 10)))
    with (4 * length data / 10 - length data / 10)%nat by lia.
  rewrite !INR_IZR_INZ.
  rewrite Nat2Z.inj_sub by lia.
  rewrite (Nat2Z.inj_sub (length data)) by lia.
  reflexivity.
Qed.

Lemma total_bounds (l : list Z) :
  Forall is_byte l -> 0 <= total l <= INR (length l).
Proof.
  induction 1 as [|d l Hd _ IH].
  - cbn. lra.
  - rewrite total_cons. change (length (d :: l)) with (S (length l)).
    rewrite S_INR. destruct Hd as [L U].
    apply IZR_le in L. apply IZR_le in U. lra.
Qed.

Lemma average_bounds (l : list Z) :
  Forall is_byte l -> (0 < length l)%nat -> 0 <= average l <= 1.
Proof.
  intros Hl Hpos. unfold average.
  pose proof (total_bounds l Hl) as [L U].
  assert (Hn : 0 < INR (length l)) by (apply lt_0_INR; lia).
  split.
  - apply Rmult_le_pos; [lra|]. left. now apply Rinv_0_lt_compat.
  - apply (Rmult_le_reg_r (INR (length l))); [exact Hn|].
    unfold Rdiv. rewrite Rmult_assoc, Rinv_l by lra. lra.
Qed.

Lemma Math_pow_bounds (x : R) : 0 <= x <= 1 -> 0 <= Math_pow x 1.2 <= 1.
Proof.
  intros [L U]. unfold Math_pow. destruct (Rlt_dec 0 x) as [Hx|Hx]; [|lra].
  unfold Rpower. split.
  - left. apply exp_pos.
  - rewrite <- exp_0. destruct U as [U|U].
    + left. apply exp_increasing.
      assert (ln x < 0) by (rewrite <- ln_1; apply ln_increasing; lra). nra.
    + subst x. rewrite ln_1, Rmult_0_r. lra.
Qed.

Lemma Math_pow_one (y : R) : Math_pow 1 y = 1.
Proof.
  unfold Math_pow. destruct (Rlt_dec 0 1) as [_|H]; [|lra].
  unfold Rpower. rewrite ln_1, Rmult_0_r. apply exp_0.
Qed.

Lemma total_repeat (d : Z) (n : nat) : total (repeat d n) = INR n * (IZR d / 255).
Proof.
  induction n as [|n IH].
  - cbn. lra.
  - change (repeat d (S n)) with (d :: repeat d n).
    rewrite total_cons, IH, S_INR. lra.
Qed.

Lemma loudBuffer_bytes : Forall is_byte loudBuffer.
Proof. apply List.Forall_forall. intros d Hd. apply repeat_spec in Hd. subst d. red. lia. Qed.

Lemma loudBuffer_bass : bassAvg (sampleBands loudBuffer) = 1.2.
Proof.
  rewrite sampleBands_shaped. cbn [shaped_bands bassAvg].
  replace (bassBins loudBuffer) with (repeat 255%Z 102) by (vm_compute; reflexivity).
  unfold average. rewrite total_repeat, repeat_length.
  replace (INR 102 * (255 / 255) / INR 102) with 1.
  - rewrite Math_pow_one. lra.
  - assert (INR 102 <> 0) by (apply not_0_INR; lia). field. assumption.
Qed.

End BandFacts.

(** ** The band values and the visual parameters *)

Section VisualClaims.
Import Audio.
Local Open Scope R_scope.

(** C2 (as stated, refuted): on the buffer with every bin at 255 the bass
    value produced by the sampling step is 1.2, above 1. *)
Lemma C2_bass_exceeds_one :
  Forall is_byte loudBuffer /\ ~ (bassAvg (sampleBands loudBuffer) <= 1).
Proof.
  split; [exact loudBuffer_bytes|]. rewrite loudBuffer_bass. lra.
Qed.

(** C2 (amended): for every buffer of bytes with at least ten bins, the
    average of each range lies within [0, 1]; the bass value produced from it
    lies within [0, 1.2], the mid value within [0, 0.8] and the treble value
    within [0, 0.7]. *)
Theorem C2_band_bounds (data : list Z) :
  Forall is_byte data -> (10 <= length data)%nat ->
  (0 <= average (bassBins data) <= 1 /\
   0 <= average (midBins data) <= 1 /\
   0 <= average (trebleBins data) <= 1) /\
  0 <= bassAvg (sampleBands data) <= 1.2 /\
  0 <= midAvg (sampleBands data) <= 0.8 /\
  0 <= trebleAvg (sampleBands data) <= 0.7.
Proof.
  intros Hb Hlen. rewrite sampleBands_shaped. cbn [shaped_bands bassAvg midAvg trebleAvg].
  destruct (bins_length data) as (Lb & Lm & Lt).
  assert (Bb : 0 <= average (bassBins data) <= 1).
  { apply average_bounds; [apply Forall_take; exact Hb | lia]. }
  assert (Bm : 0 <= average (midBins data) <= 1).
  { apply average_bounds; [apply Forall_take, Forall_drop; exact Hb | lia]. }
  assert (Bt : 0 <= average (trebleBins data) <= 1).
  { apply average_bounds; [apply Forall_drop; exact Hb | lia]. }
  pose proof (Math_pow_bounds _ Bb). repeat split; lra.
Qed.

Lemma C2_band_bounds_witness :
  (0 <= average (bassBins loudBuffer) <= 1 /\
   0 <= average (midBins loudBuffer) <= 1 /\
   0 <= average (trebleBins loudBuffer) <= 1) /\
  0 <= bassAvg (sampleBands loudBuffer) <= 1.2 /\
  0 <= midAvg (sampleBands loudBuffer) <= 0.8 /\
  0 <= trebleAvg (sampleBands loudBuffer) <= 0.7.
Proof.
  apply (C2_band_bounds loudBuffer).
  - exact loudBuffer_bytes.
  - vm_compute. lia.
Defined.

(** C6 (as stated, refuted): on the buffer with every bin at 255 the code's
    bass value (1.2) differs from the exponent-only shaping of the claim (1). *)
Lemma C6_bass_gain_missing : sampleBands loudBuffer <> spec_bands loudBuffer.
Proof.
  intros E. apply (f_equal bassAvg) in E. rewrite loudBuffer_bass in E.
  cbn [spec_bands bassAvg] in E.
  replace (bassBins loudBuffer) with (repeat 255%Z 102) in E by (vm_compute; reflexivity).
  unfold average in E. rewrite total_repeat, repeat_length in E.
  replace (INR 102 * (255 / 255) / INR 102) with 1 in E.
  - rewrite Math_pow_one in E. lra.
  - assert (INR 102 <> 0) by (apply not_0_INR; lia). field. assumption.
Qed.

(** C6 (amended): the buffer is split into three contiguous ranges (the first
    tenth of the bins, rounded down; up to four tenths, rounded down; the
    rest); each bin is divided by 255 and averaged over its range; the bass
    average is raised to the power 1.2 and multiplied by the gain 1.2, the mid
    and treble averages are multiplied by the gains 0.8 and 0.7. *)
Theorem C6_bands_partition_shaping (data : list Z) :
  data = bassBins data ++ midBins data ++ trebleBins data /\
  bassRange (length data) = Z.of_nat (length (bassBins data)) /\
  midRange (length data) = Z.of_nat (length (bassBins data ++ midBins data)) /\
  bassAvg (sampleBands data) = Math_pow (average (bassBins data)) 1.2 * 1.2 /\
  midAvg (sampleBands data) = average (midBins data) * 0.8 /\
  trebleAvg (sampleBands data) = average (trebleBins data) * 0.7.
Proof.
  destruct (bins_length data) as (Lb & Lm & Lt).
  split; [apply bins_partition|].
  split; [rewrite bassRange_div, Lb, Nat2Z.inj_div; reflexivity|].
  split.
  { rewrite midRange_div, length_app, Lb, Lm.
    replace (length data / 10 + (4 * length data / 10 - length data / 10))%nat
      with (4 * length data / 10)%nat by lia.
    rewrite Nat2Z.inj_div, Nat2Z.inj_mul. reflexivity. }
  rewrite sampleBands_shaped. cbn. repeat split; reflexivity.
Qed.

Lemma after_frames_S (n : nat) (data : list Z) (v : Visualizer) :
  after_frames (S n) data v = animate_update data (after_frames n data v).
Proof. reflexivity. Qed.

Lemma frames_running (n : nat) (data : list Z) (v : Visualizer) :
  frames n true true data (Some v) = Some (after_frames n data v).
Proof.
  induction n as [|n IH]; [reflexivity|].
  cbn [frames]. rewrite IH. reflexivity.
Qed.

(** C7: each frame moves [pulseIntensity] toward the target
    [Math.pow(bassAvg, 1.2) * 3.0 + midAvg * 1.2] by the factor 0.15; with the
    band input held constant over frames, the distance to the target shrinks
    by the ratio 0.85 per frame, so it never grows. *)
Theorem C7_pulse_geometric (data : list Z) (v : Visualizer) (n : nat) :
  let b := sampleBands data in
  let target := Math_pow (bassAvg b) 1.2 * 3.0 + midAvg b * 1.2 in
  let p := fun k => pulseIntensity (after_frames k data v) in
  frames n true true data (Some v) = Some (after_frames n data v) /\
  p (S n) = p n + (target - p n) * 0.15 /\
  p n - target = 0.85 ^ n * (p 0%nat - target) /\
  Rabs (p (S n) - target) = 0.85 * Rabs (p n - target) /\
  Rabs (p (S n) - target) <= Rabs (p n - target).
Proof.
  intros b target p.
  assert (Hstep : forall k, p (S k) = p k + (target - p k) * 0.15).
  { intros k. unfold p. rewrite after_frames_S. reflexivity. }
  assert (Hdist : forall k, Rabs (p (S k) - target) = 0.85 * Rabs (p k - target)).
  { intros k. rewrite Hstep.
    replace (p k + (target - p k) * 0.15 - target) with (0.85 * (p k - target)) by lra.
    rewrite Rabs_mult, (Rabs_pos_eq 0.85) by lra. reflexivity. }
  split; [apply frames_running|]. split; [apply Hstep|]. split.
  - induction n as [|k IH]; [cbn; lra|].
    rewrite Hstep. cbn [pow]. rewrite Rmult_assoc, <- IH. lra.
  - split; [apply Hdist|]. rewrite Hdist.
    pose proof (Rabs_pos (p n - target)). lra.
Qed.

Lemma animate_uniform (analyser isListening : bool) (data : list Z)
    (o : option Visualizer) :
  (forall v, o = Some v -> uniform_scale v) ->
  forall v', animate analyser isListening data o = Some v' -> uniform_scale v'.
Proof.
  intros Ho v' E. destruct o as [v|]; [|discriminate]. cbn in E.
  destruct (analyser && isListening); inversion E; subst.
  - split; reflexivity.
  - now apply Ho.
Qed.

(** C10: after the update of a frame the three scale components are the same
    value, for every buffer and every previous mesh state; hence along every
    run of frames from the initial mesh the scale stays uniform. *)
Theorem C10_scale_uniform :
  (forall (data : list Z) (v : Visualizer),
      let v' := animate_update data v in
      scale_x v' = scale_x v + (targetScale (sampleBands data) - scale_x v) * 0.15 /\
      scale_y v' = scale_x v' /\ scale_z v' = scale_x v') /\
  (forall (fs : list (bool * bool * list Z)),
      exists v, run_frames fs (Some initVisualizer) = Some v /\ uniform_scale v).
Proof.
  split.
  - intros data v. cbn. repeat split; reflexivity.
  - intros fs. unfold run_frames.
    assert (G : forall o : option Visualizer,
               (exists v, o = Some v /\ uniform_scale v) ->
               exists v, fold_left (fun o '(analyser, isListening, dataArray) =>
                           animate analyser isListening dataArray o) fs o = Some v
                         /\ uniform_scale v).
    { induction fs as [|[[a l] d] fs IH]; intros o Ho; [exact Ho|].
      cbn [fold_left]. apply IH. destruct Ho as (v & -> & Hv).
      cbn [animate]. destruct (a && l).
      - eexists. split; [reflexivity|]. split; reflexivity.
      - eexists. split; [reflexivity|exact Hv]. }
    apply G. exists initVisualizer. split; [reflexivity|]. split; reflexivity.
Qed.

End VisualClaims.

(** ** Facts about the recognition session *)

Import Session.

(** Unfolds the functions of the script down to record updates. *)
Ltac script :=
  unfold step, handle, resume, recordButton_click, recordButton_click_resume,
    closeButton_click, createOrUpdateDisplay, recognition_onstart,
    recognition_onerror, recognition_onresult, restart_callback,
    appendTranscript, initializeRecognition_begin, initializeRecognition_resume,
    startRecognition, startRecognition_resume, startRecognition_start,
    stopRecognition, initAudio_begin, updateRecordButtonState, engine_start,
    engine_stop, clearTimeout, setTimeout, park, recordingButton,
    contextSuspended, start_pending, transcript in *.

Section SessionFacts.
Variable env : nat -> ContextState.

Lemma recordingButton_cleared (s : State) :
  recordingButton (updateRecordButtonState false s) = false.
Proof.
  unfold recordingButton, updateRecordButtonState.
  destruct (container s) as [c|] eqn:E; cbn; [reflexivity|now rewrite E].
Qed.

(** [recognition.onend] removes the class [recording] and tests it next: the
    branch that calls [setTimeout] is never taken. *)
Lemma onend_unfold (s : State) :
  recognition_onend s = updateRecordButtonState false (set_isListening false s).
Proof.
  unfold recognition_onend. now rewrite recordingButton_cleared.
Qed.

Lemma run_cons (ev : Event) (tr : list Event) (s : State) :
  run env (ev :: tr) s = run env tr (step env ev s).
Proof. reflexivity. Qed.

Lemma is_Starting_insert (es : list EngineStatus) (e : nat) (st : EngineStatus) :
  existsb is_Starting es = false -> is_Starting st = false ->
  existsb is_Starting (<[e := st]> es) = false.
Proof.
  revert e. induction es as [|a es IH]; intros e Hes Hst; [reflexivity|].
  cbn in Hes. apply orb_false_iff in Hes as [Ha Hes].
  destruct e as [|e]; cbn.
  - now rewrite Hst.
  - now rewrite Ha, IH.
Qed.

Lemma no_Starting_lookup (es : list EngineStatus) (e : nat) :
  existsb is_Starting es = false -> es !! e <> Some Starting.
Proof.
  revert e. induction es as [|a es IH]; intros e Hes; [now destruct e|].
  cbn in Hes. apply orb_false_iff in Hes as [Ha Hes].
  destruct e as [|e]; cbn.
  - intros [= ->]. discriminate.
  - now apply IH.
Qed.

(** Quiet events keep an idle session idle: nothing gets started and no
    timeout is set. *)
Lemma idle_step (n : nat) (ev : Event) (s : State) :
  idle n s -> quiet ev = true -> idle n (step env ev s).
Proof.
  intros [Hl Hb Ha He Hn] Hq.
  destruct ev; try discriminate Hq; rewrite ?onend_unfold.
  all: destruct s as [rec lis rt ac es cs ts nt aw co]; cbn in *; subst.
  all: script; rewrite ?onend_unfold; script; cbn.
  all: repeat case_match; simplify_eq/=; try (split; cbn; auto using is_Starting_insert; fail).
  all: try (split; cbn; try apply is_Starting_insert; auto; congruence).
  all: exfalso; eapply no_Starting_lookup; eauto.
Qed.

Lemma idle_run (n : nat) (tr : list Event) :
  forallb quiet tr = true -> forall s, idle n s -> idle n (run env tr s).
Proof.
  induction tr as [|ev tr IH]; intros Hq s Hs; [exact Hs|].
  cbn in Hq. apply andb_true_iff in Hq as [Hev Htr].
  rewrite run_cons. apply IH; [exact Htr|]. now apply idle_step.
Qed.


(** No event sets a timeout, and none assigns [restartTimeout]. *)
Lemma step_timers (ev : Event) (s : State) :
  nextTimer (step env ev s) = nextTimer s /\
  restartTimeout (step env ev s) = restartTimeout s /\
  (timers s = [] -> timers (step env ev s) = []).
Proof.
  destruct s as [rec lis rt ac es cs ts nt aw co].
  destruct ev; script; rewrite ?onend_unfold; script; cbn.
  all: repeat case_match; simplify_eq/=; repeat split; try congruence.
  all: intros ->; reflexivity.
Qed.

Lemma run_timers (tr : list Event) (s : State) :
  nextTimer (run env tr s) = nextTimer s /\
  restartTimeout (run env tr s) = restartTimeout s /\
  (timers s = [] -> timers (run env tr s) = []).
Proof.
  revert s. induction tr as [|ev tr IH]; intros s; [now cbn|].
  rewrite run_cons. destruct (IH (step env ev s)) as (H1 & H2 & H3).
  destruct (step_timers ev s) as (G1 & G2 & G3).
  rewrite H1, H2, G1, G2. auto.
Qed.

(** From the loaded script on, no restart is ever pending. *)
Lemma no_restart_reachable (tr : list Event) :
  timers (run env tr init) = [] /\ restartTimeout (run env tr init) = None.
Proof.
  destruct (run_timers tr init) as (_ & H2 & H3). split; [now apply H3|exact H2].
Qed.

Lemma step_transcript (ev : Event) (s : State) :
  keeps_transcript ev = true -> transcript (step env ev s) = transcript s.
Proof.
  intros Hk. destruct s as [rec lis rt ac es cs ts nt aw co].
  destruct ev; try discriminate Hk; script; rewrite ?onend_unfold; script; cbn.
  all: repeat case_match; simplify_eq/=; try congruence; reflexivity.
Qed.

(** The guard at the top of [initializeRecognition]: the held engine is
    stopped and released. *)
Lemma initializeRecognition_begin_releases (s : State) (e : nat) :
  recognition s = Some e ->
  recognition (initializeRecognition_begin env s) = None /\
  live (initializeRecognition_begin env s) e = false.
Proof.
  intros He. destruct s as [rec lis rt ac es cs ts nt aw co]. cbn in He. subst rec.
  unfold live. script; cbn. split; [repeat case_match; reflexivity|].
  destruct (es !! e) as [[]|] eqn:E; cbn; rewrite ?E; try reflexivity.
  all: rewrite list_lookup_insert_eq by (now apply lookup_lt_Some in E); reflexivity.
Qed.

End SessionFacts.

(** ** Sequenced starts keep a single live engine *)

Section Sequential.
Variable env : nat -> ContextState.

Lemma held_only_insert_held (e : nat) (st : EngineStatus) (es : list EngineStatus) :
  held_only (Some e) es -> held_only (Some e) (<[e := st]> es).
Proof.
  intros H e' st' Hl Hs. destruct (decide (e' = e)) as [->|Hne]; [reflexivity|].
  rewrite list_lookup_insert_ne in Hl by congruence. eauto.
Qed.

Lemma held_only_insert_idle (r : option nat) (e : nat) (st : EngineStatus)
    (es : list EngineStatus) :
  is_started st = false -> held_only r es -> held_only r (<[e := st]> es).
Proof.
  intros Hst H e' st' Hl Hs. destruct (decide (e' = e)) as [->|Hne].
  - apply list_lookup_insert_Some in Hl as [(_ & <- & _)|(? & _)]; congruence.
  - rewrite list_lookup_insert_ne in Hl by congruence. eauto.
Qed.

Lemma held_only_release (e : nat) (st : EngineStatus) (es : list EngineStatus) :
  is_started st = false -> held_only (Some e) es -> held_only None (<[e := st]> es).
Proof.
  intros Hst H e' st' Hl Hs. destruct (decide (e' = e)) as [->|Hne].
  - apply list_lookup_insert_Some in Hl as [(_ & <- & _)|(? & _)]; congruence.
  - rewrite list_lookup_insert_ne in Hl by congruence.
    specialize (H _ _ Hl Hs). congruence.
Qed.

Lemma held_only_release_idle (e : nat) (es : list EngineStatus) :
  (forall st, es !! e = Some st -> is_started st = false) ->
  held_only (Some e) es -> held_only None es.
Proof.
  intros Hst H e' st' Hl Hs. pose proof (H _ _ Hl Hs) as [= ->].
  rewrite (Hst _ Hl) in Hs. discriminate.
Qed.

Lemma held_only_new (es : list EngineStatus) :
  held_only None es -> held_only (Some (length es)) (es ++ [Inactive]).
Proof.
  intros H e st Hl Hs. apply lookup_app_Some in Hl as [Hl|[_ Hl]].
  - specialize (H _ _ Hl Hs). discriminate.
  - apply list_lookup_singleton_Some in Hl as [_ <-]. discriminate.
Qed.

Lemma init_count_app (l : list Await) (a : Await) :
  init_count (l ++ [a]) = init_count l + (if is_init a then 1 else 0).
Proof.
  induction l as [|b l IH]; cbn; [lia|]. rewrite IH.
  destruct (is_init a), (is_init b); lia.
Qed.

Lemma init_count_delete (l : list Await) (k : nat) (a : Await) :
  l !! k = Some a ->
  init_count l = (if is_init a then 1 else 0) + init_count (delete k l).
Proof.
  revert k. induction l as [|b l IH]; intros k Hk; [now destruct k|].
  destruct k as [|k]; cbn in *.
  - now inversion Hk.
  - rewrite (IH k Hk). destruct (is_init a), (is_init b); reflexivity.
Qed.

Lemma init_count_0 (l : list Await) : existsb is_init l = false <-> init_count l = 0.
Proof.
  induction l as [|b l IH]; cbn; [tauto|].
  rewrite orb_false_iff, IH. destruct (is_init b); cbn.
  - split; [intros [? _]; discriminate | discriminate].
  - split; [intros [_ H]; exact H | intros H; split; [reflexivity|exact H]].
Qed.


Lemma existsb_init_delete (aw : list Await) (k : nat) :
  existsb is_init (delete k aw) = true -> existsb is_init aw = true.
Proof.
  revert k. induction aw as [|a aw IH]; intros k; [now destruct k|].
  destruct k as [|k]; cbn.
  - intros ->. apply orb_true_r.
  - rewrite !orb_true_iff. intros [H|H]; [now left|right; eauto].
Qed.

Lemma init_count_delete_le (aw : list Await) (k : nat) :
  init_count (delete k aw) <= init_count aw.
Proof.
  revert k. induction aw as [|a aw IH]; intros [|k]; cbn; auto.
  - destruct (is_init a); auto with arith.
  - apply Nat.add_le_mono_l, IH.
Qed.

Lemma S_held (n : nat) (st : EngineStatus) es aw :
  sequential3 (Some n) es aw -> sequential3 (Some n) (<[n := st]> es) aw.
Proof. intros (H1 & H2 & H3). split; [now apply held_only_insert_held|now split]. Qed.

Lemma S_idle (r : option nat) (e : nat) (st : EngineStatus) es aw :
  is_started st = false ->
  sequential3 r es aw -> sequential3 r (<[e := st]> es) aw.
Proof. intros Hst (H1 & H2 & H3). split; [now apply held_only_insert_idle|now split]. Qed.

Lemma S_active (r : option nat) (e : nat) es aw :
  es !! e = Some Starting ->
  sequential3 r es aw -> sequential3 r (<[e := Active]> es) aw.
Proof.
  intros He H. pose proof H as (H1 & _). rewrite (H1 e Starting He eq_refl) in *.
  now apply S_held.
Qed.

Lemma S_park (r : option nat) (a : Await) es aw :
  is_init a = false ->
  sequential3 r es aw -> sequential3 r es (aw ++ [a]).
Proof.
  intros Ha (H1 & H2 & H3). split; [exact H1|]. split.
  - rewrite existsb_app. cbn. rewrite Ha, orb_false_r. exact H2.
  - rewrite init_count_app, Ha, Nat.add_0_r. exact H3.
Qed.

Lemma S_delete (r : option nat) (k : nat) es aw :
  sequential3 r es aw -> sequential3 r es (delete k aw).
Proof.
  intros (H1 & H2 & H3). split; [exact H1|]. split.
  - intros H. apply H2. eapply existsb_init_delete, H.
  - etransitivity; [apply init_count_delete_le|exact H3].
Qed.

Lemma S_init es aw :
  existsb is_init aw = false ->
  sequential3 None es aw ->
  sequential3 None es (aw ++ [InitAudio_in_initializeRecognition]).
Proof.
  intros Ha (H1 & H2 & H3). split; [exact H1|]. split; [reflexivity|].
  rewrite init_count_app. apply init_count_0 in Ha. rewrite Ha. cbn. auto.
Qed.

Lemma S_release (n : nat) (st : EngineStatus) es aw :
  is_started st = false ->
  sequential3 (Some n) es aw -> sequential3 None (<[n := st]> es) aw.
Proof.
  intros Hst (H1 & H2 & H3). split; [now apply held_only_release|].
  split; [reflexivity|exact H3].
Qed.

Lemma S_release_idle (n : nat) es aw :
  (forall st, es !! n = Some st -> is_started st = false) ->
  sequential3 (Some n) es aw -> sequential3 None es aw.
Proof.
  intros Hst (H1 & H2 & H3). split; [now apply (held_only_release_idle n)|].
  split; [reflexivity|exact H3].
Qed.

Lemma S_new (r : option nat) (k : nat) es aw :
  aw !! k = Some InitAudio_in_initializeRecognition ->
  sequential3 r es aw ->
  sequential3 (Some (length es)) (es ++ [Inactive]) (delete k aw).
Proof.
  intros Hk (H1 & H2 & H3).
  pose proof (init_count_delete aw k _ Hk) as E. cbn in E.
  assert (Z : init_count (delete k aw) = 0).
  { rewrite E in H3. now apply Nat.succ_le_mono, Nat.le_0_r in H3. }
  assert (Hr : r = None).
  { apply H2. destruct (existsb is_init aw) eqn:X; [reflexivity|].
    apply init_count_0 in X. rewrite X in E. discriminate. }
  subst r. split; [now apply held_only_new|]. split.
  - apply init_count_0 in Z. rewrite Z. discriminate.
  - rewrite Z. auto.
Qed.

Lemma sequential_step (ev : Event) (s : State) :
  sequential s ->
  (ev = RecordClick -> initializing s = false) ->
  sequential (step env ev s).
Proof.
  unfold sequential, initializing. intros H Hc.
  destruct s as [rec lis rt ac es cs ts nt aw co]; cbn in *.
  destruct ev; script; rewrite ?onend_unfold; script; cbn.
  all: repeat case_match; simplify_eq/=; try assumption.
  all: try (specialize (Hc eq_refl)).
  all: try (apply S_init; [assumption|]).
  all: try (apply S_park; [reflexivity|]).
  all: try (apply S_held).
  all: try (eapply S_new; eassumption).
  all: try (apply S_release; [reflexivity|assumption]).
  all: try (apply S_active; assumption).
  all: try (apply S_idle; [reflexivity|assumption]).
  all: try (apply S_delete; assumption).
  all: try assumption.
  all: eapply S_release_idle; [|eassumption]; intros st Hst; simplify_eq; reflexivity.
Qed.

Lemma sequential_run (tr : list Event) :
  forall s, sequenced env tr s = true -> sequential s -> sequential (run env tr s).
Proof.
  induction tr as [|ev tr IH]; intros s Hq Hs; [exact Hs|].
  cbn [sequenced] in Hq. apply andb_true_iff in Hq as [Hev Htr].
  change (run env (ev :: tr) s) with (run env tr (step env ev s)).
  apply IH; [exact Htr|]. apply sequential_step; [exact Hs|].
  intros ->. now apply negb_true_iff.
Qed.

Lemma sequential_init : sequential init.
Proof.
  split; [|split].
  - intros e st Hl. now destruct e.
  - discriminate.
  - cbn. auto.
Qed.

Lemma single_value (l : list nat) (a : nat) :
  NoDup l -> (forall x, x ∈ l -> x = a) -> length l <= 1.
Proof.
  intros Hnd Hall. destruct l as [|x [|y l]]; cbn; auto.
  exfalso. apply NoDup_cons in Hnd as [Hx _]. apply Hx.
  rewrite (Hall x), <- (Hall y); [left| right; left | left].
Qed.

(** Under the invariant, every live engine is the held one. *)
Lemma sequential_live (s : State) :
  sequential s -> length (live_engines s) <= 1.
Proof.
  intros (Hh & _ & _). unfold live_engines.
  destruct (recognition s) as [r|] eqn:Er.
  - apply (single_value _ r).
    + apply NoDup_filter, NoDup_seq.
    + intros e He. apply list_elem_of_filter in He as [Hl _].
      unfold live in Hl. destruct (engines s !! e) as [st|] eqn:E; [|discriminate].
      rewrite Er in Hl. apply orb_true_iff in Hl as [Hl|Hl].
      * apply bool_decide_eq_true in Hl. congruence.
      * specialize (Hh e st E Hl). congruence.
  - apply (single_value _ 0); [apply NoDup_filter, NoDup_seq|].
    intros e He. apply list_elem_of_filter in He as [Hl _].
    unfold live in Hl. destruct (engines s !! e) as [st|] eqn:E; [|discriminate].
    rewrite Er in Hl. cbn in Hl. specialize (Hh e st E Hl). discriminate.
Qed.

(** When no click overlaps an initialization in progress, at most one engine
    is live after every trace. *)
Lemma sequenced_single_engine (tr : list Event) :
  sequenced env tr init = true -> length (live_engines (run env tr init)) <= 1.
Proof.
  intros Hq. apply sequential_live, sequential_run; [exact Hq|apply sequential_init].
Qed.

End Sequential.

(** ** The recognition session: starts, ends, errors and stops *)

Section SessionClaims.

(** C1 (the code departs from it): two clicks on the record button before the
    first microphone request settles. When the second [initializeRecognition]
    resumes it creates engine 1 while engine 0 is held and started; engine 0
    is never stopped, and both engines are live. The guard that stops and
    releases the held engine ran before the await, when nothing was held. *)
Theorem C1_overlapping_starts_two_live :
  let before := run contextsRun [RecordClick; RecordClick; Resolved 0 true] init in
  let after := step contextsRun (Resolved 0 true) before in
  (recognition before = Some 0 /\ engines before = [Starting]) /\
  (recognition after = Some 1 /\ engines after = [Starting; Starting]) /\
  live_engines after = [0; 1].
Proof. vm_compute. repeat split; reflexivity. Qed.

(** C3 (the code departs from it): the engine of a listening session, whose
    record button carries [recording], ends. The handler removes the class
    before it tests it, so no timeout is set: nothing is pending afterwards,
    and the same holds for an end event in every state. *)
Theorem C3_ended_schedules_nothing :
  (recordingButton listening = true /\ isListening listening = true /\
   engines listening = [Active]) /\
  (let s' := step contextsRun (Engine_end 0) listening in
   engines s' = [Inactive] /\ timers s' = [] /\ restartTimeout s' = None) /\
  (forall (env : nat -> ContextState) (e : nat) (s : State),
      nextTimer (step env (Engine_end e) s) = nextTimer s /\
      restartTimeout (step env (Engine_end e) s) = restartTimeout s).
Proof.
  split; [vm_compute; repeat split; reflexivity|].
  split; [vm_compute; repeat split; reflexivity|].
  intros env e s. destruct (step_timers env (Engine_end e) s) as (H1 & H2 & _).
  now split.
Qed.

(** C4: an error event marks the session not listening and sets no timeout;
    when no start is in flight, the session stays not listening, and no engine
    gets started, along every sequence of events that contains no start
    request from the caller. *)
Theorem C4_error_no_restart (env : nat -> ContextState) (s s1 : State) (e : nat)
    (tr : list Event) :
  handle env (Engine_error e) s = Some s1 ->
  awaits s = [] ->
  start_pending s1 = false ->
  forallb quiet tr = true ->
  (isListening s1 = false /\ recordingButton s1 = false /\
   nextTimer s1 = nextTimer s /\ timers s1 = timers s /\
   restartTimeout s1 = restartTimeout s) /\
  (isListening (run env tr s1) = false /\
   start_pending (run env tr s1) = false /\
   nextTimer (run env tr s1) = nextTimer s).
Proof.
  intros Hh Ha Hp Hq.
  assert (F : isListening s1 = false /\ recordingButton s1 = false /\
              nextTimer s1 = nextTimer s /\ timers s1 = timers s /\
              restartTimeout s1 = restartTimeout s /\ awaits s1 = awaits s).
  { destruct s as [rec lis rt ac es cs ts nt aw co].
    revert Hh. script; cbn.
    repeat case_match; intros; simplify_eq/=; repeat split; try congruence. }
  destruct F as (F1 & F2 & F3 & F4 & F5 & F6).
  split; [repeat split; assumption|].
  assert (I : idle (nextTimer s) s1) by (split; congruence).
  destruct (idle_run env _ tr Hq s1 I) as [G1 G2 G3 G4 G5]. repeat split; assumption.
Qed.

Lemma C4_error_no_restart_witness :
  let s1 := step contextsRun (Engine_error 0) listening in
  let tr := [Engine_end 0; TimerFired 0; Message_stopListening] in
  (isListening s1 = false /\ recordingButton s1 = false /\
   nextTimer s1 = nextTimer listening /\ timers s1 = timers listening /\
   restartTimeout s1 = restartTimeout listening) /\
  (isListening (run contextsRun tr s1) = false /\
   start_pending (run contextsRun tr s1) = false /\
   nextTimer (run contextsRun tr s1) = nextTimer listening).
Proof.
  apply (C4_error_no_restart contextsRun listening _ 0
           [Engine_end 0; TimerFired 0; Message_stopListening]);
    vm_compute; reflexivity.
Defined.




End SessionClaims.

(** ** The transcript display *)

Section TranscriptClaims.
Local Open Scope string_scope.

(** C8 (the code departs from it): an interim result, its final result, then
    the next interim result. The interim node stays where it was first
    inserted, so the display reads the interim fragment before the final
    segment, where the claim's view reads it after. *)
Theorem C8_interim_before_later_finals :
  transcript (run contextsRun heard init)
  = [mkNode "interim-text" "next"; mkNode "final-text" "world"] /\
  view (run contextsRun heard init) = "nextworld" /\
  spec_view [(EmptyString, "wor"); ("world", EmptyString); (EmptyString, "next")] = "worldnext".
Proof. vm_compute. repeat split; reflexivity. Qed.

(** The scenario of two final fragments with no interim in between. *)
Example hello_world :
  view (run contextsRun
          [RecordClick; Resolved 0 true; Engine_start 0;
           Engine_result 0 0 [("hello ", true)];
           Engine_result 0 1 [("hello ", true); ("world", true)]] init)
  = "hello world".
Proof. vm_compute. reflexivity. Qed.




End TranscriptClaims.

(** ** More on the visualizer: scale, colour, rotation, pulse *)

Section VisualFacts.
Import Audio Visual.
Local Open Scope R_scope.

Lemma sampled_bands (data : list Z) :
  sampled data ->
  0 <= bassAvg (sampleBands data) <= 1.2 /\
  0 <= midAvg (sampleBands data) <= 0.8 /\
  0 <= trebleAvg (sampleBands data) <= 0.7.
Proof.
  intros [Hb Hlen]. rewrite sampleBands_shaped. cbn [shaped_bands bassAvg midAvg trebleAvg].
  destruct (bins_length data) as (Lb & Lm & Lt).
  assert (Bb : 0 <= average (bassBins data) <= 1).
  { apply average_bounds; [apply Forall_take; exact Hb | lia]. }
  assert (Bm : 0 <= average (midBins data) <= 1).
  { apply average_bounds; [apply Forall_take, Forall_drop; exact Hb | lia]. }
  assert (Bt : 0 <= average (trebleBins data) <= 1).
  { apply average_bounds; [apply Forall_drop; exact Hb | lia]. }
  pose proof (Math_pow_bounds _ Bb). repeat split; lra.
Qed.

Lemma Math_pow_mono (x y : R) : 0 <= x <= y -> Math_pow x 1.2 <= Math_pow y 1.2.
Proof.
  intros [Hx Hxy]. unfold Math_pow.
  destruct (Rlt_dec 0 x) as [Px|Px], (Rlt_dec 0 y) as [Py|Py]; try lra.
  - apply Rle_Rpower_l; lra.
  - left. apply exp_pos.
Qed.

Lemma Math_pow_nonneg (x : R) : 0 <= Math_pow x 1.2.
Proof.
  unfold Math_pow. destruct (Rlt_dec 0 x); [left; apply exp_pos|lra].
Qed.

(** X1: on a constant buffer the scale moves toward [targetScale] and its
    distance to it shrinks by the ratio 0.85 per frame. *)
Theorem scale_geometric (data : list Z) (v : Visualizer) (n : nat) :
  scale_x (after_frames n data v) - targetScale (sampleBands data)
  = 0.85 ^ n * (scale_x v - targetScale (sampleBands data)).
Proof.
  induction n as [|n IH]; [cbn; lra|].
  rewrite after_frames_S. cbn [animate_update scale_x pow].
  rewrite Rmult_assoc, <- IH. lra.
Qed.

(** X2: from the initial mesh, over every run of frames on sampled buffers,
    the scale stays uniform and within [1, 1.48]. *)
Theorem scale_bounded (fs : list (bool * bool * list Z)) :
  Forall (fun f => sampled (snd f)) fs ->
  exists v, run_frames fs (Some initVisualizer) = Some v /\
            1 <= scale_x v <= 1.48 /\ uniform_scale v.
Proof.
  intros Hfs. unfold run_frames.
  assert (G : forall o : option Visualizer,
     (exists v, o = Some v /\ 1 <= scale_x v <= 1.48 /\ uniform_scale v) ->
     exists v, fold_left (fun o '(analyser, isListening, dataArray) =>
                 animate analyser isListening dataArray o) fs o = Some v
               /\ 1 <= scale_x v <= 1.48 /\ uniform_scale v).
  { induction Hfs as [|[[a l] d] fs Hd _ IH]; intros o Ho; [exact Ho|].
    cbn [fold_left]. apply IH. destruct Ho as (v & -> & Hv & Hu).
    cbn [animate]. destruct (a && l); [|eauto].
    eexists. split; [reflexivity|]. split; [|split; reflexivity].
    cbn [animate_update scale_x]. unfold targetScale.
    destruct (sampled_bands d Hd) as (Hb & Hm & _). lra. }
  apply G. exists initVisualizer. cbn. repeat split; lra.
Qed.

(** X3: the colour a frame sets has hue within [0.6, 0.875], saturation
    within [0.7, 1.06] and lightness within [0.5, 0.805]. *)
Theorem colour_bounds (data : list Z) (v : Visualizer) :
  sampled data ->
  exists hue saturation lightness,
    baseColor (animate_update data v) = HSL hue saturation lightness /\
    0.6 <= hue <= 0.875 /\
    0.7 <= saturation <= 1.06 /\
    0.5 <= lightness <= 0.805.
Proof.
  intros Hd. destruct (sampled_bands data Hd) as (Hb & Hm & Ht).
  do 3 eexists. split; [reflexivity|]. lra.
Qed.

(** X4: on a constant buffer the mesh turns at a constant speed per frame,
    between 0.001 and 0.0254 about x and 1.2 times that about y, and the time
    uniform advances by 0.03 per frame. *)
Theorem rotation_advances (data : list Z) (v : Visualizer) (n : nat) :
  sampled data ->
  let speed := targetRotationSpeed (sampleBands data) in
  0.001 <= speed <= 0.0254 /\
  rotation_x (after_frames n data v) = rotation_x v + INR n * speed /\
  rotation_y (after_frames n data v) = rotation_y v + INR n * (speed * 1.2) /\
  time (after_frames n data v) = time v + INR n * 0.03.
Proof.
  intros Hd speed. destruct (sampled_bands data Hd) as (Hb & Hm & _).
  split; [unfold speed, targetRotationSpeed; lra|].
  induction n as [|n (IHx & IHy & IHt)]; [cbn; lra|].
  rewrite after_frames_S, S_INR. cbn [animate_update rotation_x rotation_y time].
  rewrite IHx, IHy, IHt. unfold speed, targetRotationSpeed. lra.
Qed.

(** X5: [targetPulse] lies within [0, maxPulse], and a pulse intensity that
    starts in this range stays in it. *)
Theorem pulse_bounded (data : list Z) (v : Visualizer) (n : nat) :
  sampled data ->
  0 <= pulseIntensity v <= maxPulse ->
  0 <= targetPulse (sampleBands data) <= maxPulse /\
  0 <= pulseIntensity (after_frames n data v) <= maxPulse.
Proof.
  intros Hd Hv. destruct (sampled_bands data Hd) as (Hb & Hm & _).
  assert (HT : 0 <= targetPulse (sampleBands data) <= maxPulse).
  { unfold targetPulse, maxPulse.
    pose proof (Math_pow_nonneg (bassAvg (sampleBands data))).
    pose proof (Math_pow_mono (bassAvg (sampleBands data)) 1.2 Hb). lra. }
  split; [exact HT|].
  induction n as [|n IH]; [exact Hv|].
  rewrite after_frames_S. cbn [animate_update pulseIntensity]. lra.
Qed.

Lemma total_silent (l : list Z) : silent l -> total l = 0.
Proof.
  induction 1 as [|d l Hd _ IH]; [reflexivity|].
  rewrite total_cons, IH, Hd. lra.
Qed.

Lemma Math_pow_zero (y : R) : Math_pow 0 y = 0.
Proof. unfold Math_pow. destruct (Rlt_dec 0 0); [lra|reflexivity]. Qed.

Lemma silent_bands (data : list Z) :
  silent data -> sampleBands data = mkBands 0 0 0.
Proof.
  intros Hs. rewrite sampleBands_shaped. unfold shaped_bands, average.
  rewrite (total_silent (bassBins data)) by (apply Forall_take; exact Hs).
  rewrite (total_silent (midBins data)) by (apply Forall_take, Forall_drop; exact Hs).
  rewrite (total_silent (trebleBins data)) by (apply Forall_drop; exact Hs).
  unfold Rdiv. rewrite !Rmult_0_l, Math_pow_zero, !Rmult_0_l. reflexivity.
Qed.

(** X6: on a buffer without signal the three band values are 0; the pulse
    intensity decays to 0 and the scale relaxes to 1 with ratio 0.85, and the
    colour is the base one. *)
Theorem silence_relaxes (data : list Z) (v : Visualizer) (n : nat) :
  silent data -> (10 <= length data)%nat ->
  sampleBands data = mkBands 0 0 0 /\
  pulseIntensity (after_frames n data v) = 0.85 ^ n * pulseIntensity v /\
  scale_x (after_frames n data v) - 1 = 0.85 ^ n * (scale_x v - 1) /\
  baseColor (animate_update data v) = HSL 0.6 0.7 0.5.
Proof.
  intros Hs _. pose proof (silent_bands data Hs) as Hb.
  split; [exact Hb|]. split; [|split].
  - induction n as [|n IH]; [cbn; lra|].
    rewrite after_frames_S. cbn [animate_update pulseIntensity pow].
    rewrite IH. unfold targetPulse. rewrite Hb. cbn [bassAvg midAvg].
    rewrite Math_pow_zero. lra.
  - induction n as [|n IH]; [cbn; lra|].
    rewrite after_frames_S. cbn [animate_update scale_x pow].
    unfold targetScale. rewrite Hb. cbn [bassAvg midAvg]. lra.
  - cbn [animate_update baseColor]. rewrite Hb. cbn [bassAvg midAvg trebleAvg].
    f_equal; lra.
Qed.

Lemma total_mono (l1 l2 : list Z) : louder l1 l2 -> total l1 <= total l2.
Proof.
  induction 1 as [|a b l1 l2 Hab _ IH]; [cbn; lra|].
  rewrite !total_cons. apply IZR_le in Hab. lra.
Qed.

Lemma average_mono (l1 l2 : list Z) :
  louder l1 l2 -> average l1 <= average l2.
Proof.
  intros H. unfold average. rewrite <- (Forall2_length _ _ _ H).
  pose proof (total_mono _ _ H).
  apply Rmult_le_compat_r; [|assumption].
  destruct (length l1); [cbn; rewrite Rinv_0; lra|].
  left. apply Rinv_0_lt_compat, lt_0_INR. lia.
Qed.

(** X7: a buffer that is at least as loud in every bin gives band values at
    least as large. *)
Theorem bands_monotone (quiet loud : list Z) :
  sampled quiet -> louder quiet loud ->
  bassAvg (sampleBands quiet) <= bassAvg (sampleBands loud) /\
  midAvg (sampleBands quiet) <= midAvg (sampleBands loud) /\
  trebleAvg (sampleBands quiet) <= trebleAvg (sampleBands loud).
Proof.
  intros [Hb Hlen] H. rewrite !sampleBands_shaped.
  cbn [shaped_bands bassAvg midAvg trebleAvg].
  pose proof (Forall2_length _ _ _ H) as El.
  assert (Mb : average (bassBins quiet) <= average (bassBins loud)).
  { apply average_mono. unfold bassBins, louder. rewrite El. now apply Forall2_take. }
  assert (Mm : average (midBins quiet) <= average (midBins loud)).
  { apply average_mono. unfold midBins, louder. rewrite El.
    now apply Forall2_take, Forall2_drop. }
  assert (Mt : average (trebleBins quiet) <= average (trebleBins loud)).
  { apply average_mono. unfold trebleBins, louder. rewrite El. now apply Forall2_drop. }
  destruct (bins_length quiet) as (Lb & _).
  assert (Bb : 0 <= average (bassBins quiet) <= 1).
  { apply average_bounds; [apply Forall_take; exact Hb | lia]. }
  pose proof (Math_pow_mono _ _ (conj (proj1 Bb) Mb)). repeat split; lra.
Qed.

Lemma loudBuffer_sampled : sampled loudBuffer.
Proof. split; [exact loudBuffer_bytes|vm_compute; lia]. Qed.

Lemma silentBuffer_sampled : sampled silentBuffer.
Proof.
  split; [|vm_compute; lia].
  apply List.Forall_forall. intros d Hd. apply repeat_spec in Hd. subst d. red. lia.
Qed.

Lemma silentBuffer_silent : silent silentBuffer.
Proof. apply List.Forall_forall. intros d Hd. now apply repeat_spec in Hd. Qed.

Lemma silent_louder_loud : louder silentBuffer loudBuffer.
Proof.
  unfold louder, silentBuffer, loudBuffer. generalize 1024%nat.
  induction n as [|n IH]; constructor; [lia|exact IH].
Qed.

End VisualFacts.

Lemma scale_bounded_witness :
  exists v, Audio.run_frames [(true, true, Audio.loudBuffer)] (Some Audio.initVisualizer)
            = Some v /\
            (1 <= Audio.scale_x v <= 1.48)%R /\ Audio.uniform_scale v.
Proof.
  apply (scale_bounded [(true, true, Audio.loudBuffer)]).
  constructor; [exact loudBuffer_sampled|constructor].
Defined.

Lemma colour_bounds_witness :
  exists hue saturation lightness,
    Audio.baseColor (Audio.animate_update Audio.loudBuffer Audio.initVisualizer)
    = Audio.HSL hue saturation lightness /\
    (0.6 <= hue <= 0.875)%R /\
    (0.7 <= saturation <= 1.06)%R /\
    (0.5 <= lightness <= 0.805)%R.
Proof.
  apply (colour_bounds Audio.loudBuffer Audio.initVisualizer). exact loudBuffer_sampled.
Defined.

Lemma rotation_advances_witness :
  let speed := Visual.targetRotationSpeed (Audio.sampleBands Audio.loudBuffer) in
  (0.001 <= speed <= 0.0254)%R /\
  Audio.rotation_x (Audio.after_frames 3 Audio.loudBuffer Audio.initVisualizer)
  = (Audio.rotation_x Audio.initVisualizer + INR 3 * speed)%R /\
  Audio.rotation_y (Audio.after_frames 3 Audio.loudBuffer Audio.initVisualizer)
  = (Audio.rotation_y Audio.initVisualizer + INR 3 * (speed * 1.2))%R /\
  Audio.time (Audio.after_frames 3 Audio.loudBuffer Audio.initVisualizer)
  = (Audio.time Audio.initVisualizer + INR 3 * 0.03)%R.
Proof.
  apply (rotation_advances Audio.loudBuffer Audio.initVisualizer 3).
  exact loudBuffer_sampled.
Defined.

Lemma pulse_bounded_witness :
  (0 <= Audio.targetPulse (Audio.sampleBands Audio.loudBuffer) <= Visual.maxPulse)%R /\
  (0 <= Audio.pulseIntensity (Audio.after_frames 3 Audio.loudBuffer Audio.initVisualizer)
   <= Visual.maxPulse)%R.
Proof.
  apply (pulse_bounded Audio.loudBuffer Audio.initVisualizer 3).
  - exact loudBuffer_sampled.
  - cbn [Audio.initVisualizer Audio.pulseIntensity]. unfold Visual.maxPulse.
    pose proof (Math_pow_nonneg 1.2). lra.
Defined.

Lemma silence_relaxes_witness :
  Audio.sampleBands Visual.silentBuffer = Audio.mkBands 0 0 0 /\
  Audio.pulseIntensity (Audio.after_frames 3 Visual.silentBuffer Audio.initVisualizer)
  = (0.85 ^ 3 * Audio.pulseIntensity Audio.initVisualizer)%R /\
  (Audio.scale_x (Audio.after_frames 3 Visual.silentBuffer Audio.initVisualizer) - 1
   = 0.85 ^ 3 * (Audio.scale_x Audio.initVisualizer - 1))%R /\
  Audio.baseColor (Audio.animate_update Visual.silentBuffer Audio.initVisualizer)
  = Audio.HSL 0.6 0.7 0.5.
Proof.
  apply (silence_relaxes Visual.silentBuffer Audio.initVisualizer 3).
  - exact silentBuffer_silent.
  - vm_compute. lia.
Defined.

Lemma bands_monotone_witness :
  (Audio.bassAvg (Audio.sampleBands Visual.silentBuffer)
   <= Audio.bassAvg (Audio.sampleBands Audio.loudBuffer))%R /\
  (Audio.midAvg (Audio.sampleBands Visual.silentBuffer)
   <= Audio.midAvg (Audio.sampleBands Audio.loudBuffer))%R /\
  (Audio.trebleAvg (Audio.sampleBands Visual.silentBuffer)
   <= Audio.trebleAvg (Audio.sampleBands Audio.loudBuffer))%R.
Proof.
  apply (bands_monotone Visual.silentBuffer Audio.loudBuffer).
  - exact silentBuffer_sampled.
  - exact silent_louder_loud.
Defined.

(** ** More on the session: stop, start, clicks, refusals, released engines *)

Section SessionMoreFacts.
Import SessionMore.

(** X8: [stopRecognition] is idempotent: a second call changes nothing. *)
Theorem stopRecognition_idempotent (s : State) :
  stopRecognition (stopRecognition s) = stopRecognition s.
Proof.
  destruct s as [rec lis rt ac es cs ts nt aw co].
  script; cbn. 
  repeat case_match; simplify_eq/=; rewrite ?list_insert_insert_eq; try reflexivity.
Qed.

(** X9: [startRecognition] on a session whose held engine is already started
    (or still ending) and whose audio context runs changes nothing: the
    exception of [recognition.start()] is caught before any flag is set. *)
Theorem startRecognition_started_noop (env : nat -> ContextState) (s : State)
    (e c : nat) (st : EngineStatus) :
  recognition s = Some e ->
  engines s !! e = Some st ->
  st <> Inactive ->
  audioContext s = Some c ->
  contexts s !! c = Some running ->
  startRecognition env s = s.
Proof.
  intros Hr He Hst Ha Hc.
  destruct s as [rec lis rt ac es cs ts nt aw co]. cbn in *. subst.
  script; cbn. rewrite Hc, He. destruct st; congruence.
Qed.

Lemma existsb_init_lookup (aw : list Await) (k : nat) :
  aw !! k = Some InitAudio_in_initializeRecognition -> existsb is_init aw = true.
Proof.
  intros H. apply existsb_exists. exists InitAudio_in_initializeRecognition.
  split; [|reflexivity]. apply list_elem_of_In. eapply list_elem_of_lookup_2, H.
Qed.

Lemma no_click_step (env : nat -> ContextState) (ev : Event) (s : State) :
  no_click ev = true -> unclicked s -> unclicked (step env ev s).
Proof.
  intros Hq (He & Hr & Hl & Hi). unfold unclicked, initializing in *.
  destruct s as [rec lis rt ac es cs ts nt aw co]. cbn in *. subst.
  destruct ev; try discriminate Hq; script; rewrite ?onend_unfold; script; cbn.
  all: repeat case_match; simplify_eq/=; auto.
  all: rewrite ?existsb_app; cbn; rewrite ?orb_false_r; auto.
  all: try (repeat split; auto; match goal with
       | |- existsb is_init (delete ?k ?aw) = false =>
           destruct (existsb is_init (delete k aw)) eqn:X; [|reflexivity];
           apply existsb_init_delete in X; congruence
       end).
  all: exfalso; match goal with
       | H : ?aw !! ?k = Some InitAudio_in_initializeRecognition |- _ =>
           apply existsb_init_lookup in H; congruence
       end.
Qed.

(** X10: without a click on the record button no recognition object is ever
    created: whatever messages, timers and settled requests arrive, the
    session holds no engine and is not listening. *)
Theorem no_engine_without_click (env : nat -> ContextState) (tr : list Event) :
  forallb no_click tr = true ->
  engines (run env tr init) = [] /\ recognition (run env tr init) = None /\
  isListening (run env tr init) = false.
Proof.
  intros Hq.
  assert (G : forall s, unclicked s -> unclicked (run env tr s)).
  { induction tr as [|ev tr IH]; intros s Hs; [auto|].
    cbn in Hq. apply andb_true_iff in Hq as [Hev Htr]. rewrite run_cons.
    apply IH; [exact Htr|]. now apply no_click_step. }
  destruct (G init) as (A & B & C & _); [repeat split|auto].
Qed.

Lemma mirror_step (env : nat -> ContextState) (ev : Event) (s : State) (c : Container) :
  keeps_panel ev = true ->
  container s = Some c -> recording c = isListening s ->
  exists c', container (step env ev s) = Some c' /\
             recording c' = isListening (step env ev s).
Proof.
  intros Hk Hc Hm.
  destruct s as [rec lis rt ac es cs ts nt aw co]. cbn in *. subst.
  destruct ev; try discriminate Hk; script; rewrite ?onend_unfold; script; cbn.
  all: repeat case_match; simplify_eq/=; eauto.
Qed.

(** X11: as long as the panel is not closed, the record button carries the
    class [recording] exactly when [isListening] is set. *)
Theorem button_mirrors_listening (env : nat -> ContextState) (tr : list Event) :
  forallb keeps_panel tr = true ->
  recordingButton (run env tr init) = isListening (run env tr init).
Proof.
  intros Hk.
  assert (G : forall s c, container s = Some c -> recording c = isListening s ->
     exists c', container (run env tr s) = Some c' /\
                recording c' = isListening (run env tr s)).
  { induction tr as [|ev tr IH]; intros s c Hc Hm; [eauto|].
    cbn in Hk. apply andb_true_iff in Hk as [Hev Htr]. rewrite run_cons.
    destruct (mirror_step env ev s c Hev Hc Hm) as (c' & Hc' & Hm'). eapply IH; eauto. }
  destruct (G init _ eq_refl eq_refl) as (c' & Hc' & Hm').
  unfold recordingButton. now rewrite Hc'.
Qed.

Lemma initializeRecognition_begin_frame (env : nat -> ContextState) (s : State) :
  awaits (initializeRecognition_begin env s)
  = awaits s ++ [InitAudio_in_initializeRecognition] /\
  isListening (initializeRecognition_begin env s) = isListening s /\
  length (engines (initializeRecognition_begin env s)) = length (engines s).
Proof.
  destruct s as [rec lis rt ac es cs ts nt aw co]. script; cbn.
  repeat case_match; simplify_eq/=; rewrite ?length_insert; auto.
Qed.

(** X12: a click on the record button of a session that is not listening,
    followed by the refusal of the microphone: no engine is created, and the
    engine held before the click has been stopped and released. *)
Theorem refused_microphone (env : nat -> ContextState) (s : State) (c : Container) :
  isListening s = false ->
  container s = Some c ->
  let s' := run env [RecordClick; Resolved (length (awaits s)) false] s in
  recognition s' = None /\
  length (engines s') = length (engines s) /\
  (forall e, recognition s = Some e -> live s' e = false) /\
  isListening s' = false /\
  awaits s' = awaits s.
Proof.
  intros Hl Hc s'.
  assert (E1 : step env RecordClick s = initializeRecognition_begin env s).
  { unfold step, handle, recordButton_click. now rewrite Hc, Hl. }
  destruct (initializeRecognition_begin_frame env s) as (Fa & Fl & Fe).
  assert (E2 : s' = set_awaits (awaits s) (initializeRecognition_begin env s)).
  { subst s'. rewrite !run_cons, E1. cbn [run fold_left]. unfold step, handle.
    rewrite Fa, lookup_app_r, Nat.sub_diag by reflexivity. cbn [lookup list_lookup default].
    rewrite (delete_middle (awaits s) []), app_nil_r. reflexivity. }
  rewrite E2. cbn [set_awaits recognition engines isListening awaits].
  repeat split; try congruence.
  - destruct (recognition s) as [e|] eqn:Er.
    + now destruct (initializeRecognition_begin_releases env s e Er).
    + destruct s. cbn in Er. subst. reflexivity.
  - intros e Er. destruct (initializeRecognition_begin_releases env s e Er) as [_ H].
    exact H.
Qed.

Lemma let_go_insert (e h : nat) (st : EngineStatus) (r : option nat) es :
  h <> e \/ is_started st = false ->
  let_go e r es -> let_go e r (<[h := st]> es).
Proof.
  intros Hh (Hw & Hr & st0 & Hl & Hs). split; [|split; [exact Hr|]].
  - intros h' E. rewrite length_insert. now apply Hw.
  - destruct (decide (h = e)) as [->|Hne].
    + destruct Hh as [?|Hst]; [congruence|]. exists st. split; [|exact Hst].
      apply list_lookup_insert_eq. now apply lookup_lt_Some in Hl.
    + exists st0. split; [|exact Hs]. now rewrite list_lookup_insert_ne.
Qed.

Lemma let_go_release (e : nat) (r : option nat) es :
  let_go e r es -> let_go e None es.
Proof. intros (Hw & Hr & H). split; [discriminate|]. split; [discriminate|exact H]. Qed.

Lemma let_go_new (e : nat) (r : option nat) es :
  let_go e r es -> let_go e (Some (length es)) (es ++ [Inactive]).
Proof.
  intros (Hw & Hr & st0 & Hl & Hs). split; [|split].
  - intros h [= <-]. rewrite length_app. cbn. lia.
  - intros [= E]. apply lookup_lt_Some in Hl. lia.
  - exists st0. split; [|exact Hs]. now apply lookup_app_l_Some.
Qed.

Lemma let_go_held (e h : nat) es : let_go e (Some h) es -> h <> e.
Proof. intros (_ & Hr & _) ->. now apply Hr. Qed.

Lemma let_go_not_Starting (e : nat) (r : option nat) es :
  let_go e r es -> es !! e <> Some Starting.
Proof. intros (_ & _ & st & Hl & Hs) E. rewrite E in Hl. now inversion Hl; subst. Qed.

Lemma let_go_step (env : nat -> ContextState) (e : nat) (ev : Event) (s : State) :
  let_go e (recognition s) (engines s) ->
  let_go e (recognition (step env ev s)) (engines (step env ev s)).
Proof.
  intros H.
  destruct s as [rec lis rt ac es cs ts nt aw co]; cbn in *.
  destruct ev; script; rewrite ?onend_unfold; script; cbn.
  all: repeat case_match; simplify_eq/=; try assumption.
  all: try (apply let_go_insert; [left; eapply let_go_held; eassumption|]).
  all: try (apply let_go_insert; [right; reflexivity|]).
  all: try (eapply let_go_new; eassumption).
  all: try assumption.
  all: try (apply let_go_insert; [right; reflexivity|assumption]).
  all: try (eapply let_go_release; eassumption).
  all: try (apply let_go_insert;
            [left; eapply let_go_held, let_go_new; eassumption
            |eapply let_go_new; eassumption]).
  all: try (apply let_go_insert;
            [left; intros ->; eapply let_go_not_Starting; eassumption|assumption]).
  all: match goal with |- ?g => idtac g end.
Qed.

Lemma released_let_go (s : State) (e : nat) :
  (forall h, recognition s = Some h -> h < length (engines s)) ->
  released s e = true <->
  let_go e (recognition s) (engines s).
Proof.
  intros Hw. unfold released, let_go. rewrite andb_true_iff, bool_decide_eq_true. split.
  - intros [Hr Hl]. split; [exact Hw|]. split; [exact Hr|].
    destruct (engines s !! e) as [st|]; [|discriminate].
    exists st. split; [reflexivity|]. now apply negb_true_iff.
  - intros (_ & Hr & st & Hl & Hs). split; [exact Hr|]. now rewrite Hl, Hs.
Qed.

Lemma held_exists_step (env : nat -> ContextState) (ev : Event) (s : State) :
  (forall h, recognition s = Some h -> h < length (engines s)) ->
  forall h, recognition (step env ev s) = Some h -> h < length (engines (step env ev s)).
Proof.
  intros H.
  destruct s as [rec lis rt ac es cs ts nt aw co]; cbn in *.
  destruct ev; script; rewrite ?onend_unfold; script; cbn.
  all: repeat case_match; simplify_eq/=; try assumption; try discriminate.
  all: intros h Hh; simplify_eq; rewrite ?length_insert, ?length_app; cbn; auto; try lia.
Qed.

Lemma held_exists (env : nat -> ContextState) (tr : list Event) :
  forall h, recognition (run env tr init) = Some h ->
            h < length (engines (run env tr init)).
Proof.
  assert (G : forall s, (forall h, recognition s = Some h -> h < length (engines s)) ->
     forall h, recognition (run env tr s) = Some h -> h < length (engines (run env tr s))).
  { induction tr as [|ev tr IH]; intros s Hs; [exact Hs|].
    rewrite run_cons. apply IH. now apply held_exists_step. }
  apply G. discriminate.
Qed.

(** X13: an engine that is released (not held, not started) stays released
    after every further sequence of events: the script never restarts it. *)
Theorem released_engine_never_restarted (env : nat -> ContextState)
    (tr1 tr2 : list Event) (e : nat) :
  released (run env tr1 init) e = true ->
  released (run env (tr1 ++ tr2) init) e = true.
Proof.
  intros H. apply released_let_go; [apply held_exists|].
  apply released_let_go in H; [|apply held_exists].
  unfold run at 1 2. rewrite fold_left_app. fold (run env tr1 init).
  generalize dependent (run env tr1 init). intros s H.
  change (let_go e (recognition (run env tr2 s)) (engines (run env tr2 s))).
  revert s H. induction tr2 as [|ev tr IH]; intros s H; [exact H|].
  rewrite run_cons. apply IH. now apply let_go_step.
Qed.

End SessionMoreFacts.

Lemma startRecognition_started_noop_witness :
  startRecognition contextsRun listening = listening.
Proof.
  apply (startRecognition_started_noop contextsRun listening 0 0 Active);
    try reflexivity. discriminate.
Defined.

Lemma no_engine_without_click_witness :
  engines (run contextsRun [Message_startListening; Resolved 0 true; TimerFired 0] init) = [] /\
  recognition (run contextsRun [Message_startListening; Resolved 0 true; TimerFired 0] init)
  = None /\
  isListening (run contextsRun [Message_startListening; Resolved 0 true; TimerFired 0] init)
  = false.
Proof.
  apply (no_engine_without_click contextsRun
           [Message_startListening; Resolved 0 true; TimerFired 0]).
  reflexivity.
Defined.

Lemma button_mirrors_listening_witness :
  recordingButton (run contextsRun heard init) = isListening (run contextsRun heard init).
Proof. apply (button_mirrors_listening contextsRun heard). reflexivity. Defined.

Lemma refused_microphone_witness :
  let s' := run contextsRun [RecordClick; Resolved (length (awaits SessionMore.failed)) false]
              SessionMore.failed in
  recognition s' = None /\
  length (engines s') = length (engines SessionMore.failed) /\
  (forall e, recognition SessionMore.failed = Some e -> live s' e = false) /\
  isListening s' = false /\
  awaits s' = awaits SessionMore.failed.
Proof.
  apply (refused_microphone contextsRun SessionMore.failed (mkContainer false []));
    reflexivity.
Defined.

Lemma released_engine_never_restarted_witness :
  SessionMore.released
    (run contextsRun
       ([RecordClick; Resolved 0 true; Engine_start 0; Engine_error 0; RecordClick]
        ++ [Resolved 0 true; Engine_end 0; Message_startListening]) init) 0 = true.
Proof.
  apply (released_engine_never_restarted contextsRun
           [RecordClick; Resolved 0 true; Engine_start 0; Engine_error 0; RecordClick]
           [Resolved 0 true; Engine_end 0; Message_startListening] 0).
  vm_compute. reflexivity.
Defined.

(** ** More on the transcript display *)

Section TranscriptFacts.
Import SessionMore Transcript.

Lemma set_interim_final (i : string) (nodes : list Node) :
  final_nodes (set_interim i nodes) = final_nodes nodes.
Proof.
  induction nodes as [|n rest IH]; [reflexivity|].
  cbn [set_interim]. destruct (is_interim n) eqn:E.
  - unfold final_nodes. cbn. rewrite E. reflexivity.
  - unfold final_nodes in *. cbn. rewrite E. cbn. now rewrite IH.
Qed.

Lemma set_interim_interim (i : string) (nodes : list Node) :
  existsb is_interim nodes = true ->
  length (interim_nodes nodes) <= 1 ->
  interim_nodes (set_interim i nodes) = [mkNode "interim-text" i].
Proof.
  induction nodes as [|n rest IH]; [discriminate|].
  cbn [set_interim existsb]. unfold interim_nodes in *. cbn [List.filter].
  destruct (is_interim n) eqn:E; cbn.
  - intros _ Hlen. apply Nat.succ_le_mono, Nat.le_0_r, length_zero_iff_nil in Hlen.
    now rewrite Hlen.
  - rewrite E. intros Hex Hlen. now apply IH.
Qed.

Lemma no_interim (nodes : list Node) :
  existsb is_interim nodes = false -> interim_nodes nodes = [].
Proof.
  induction nodes as [|n rest IH]; [reflexivity|].
  cbn. intros H. apply orb_false_iff in H as [Hn Hr].
  unfold interim_nodes in *. cbn. rewrite Hn. now apply IH.
Qed.

Lemma interim_nodes_app (l1 l2 : list Node) :
  interim_nodes (l1 ++ l2) = interim_nodes l1 ++ interim_nodes l2.
Proof. apply List.filter_app. Qed.

Lemma final_nodes_app (l1 l2 : list Node) :
  final_nodes (l1 ++ l2) = final_nodes l1 ++ final_nodes l2.
Proof. apply List.filter_app. Qed.

Lemma existsb_is_interim_app_final (nodes : list Node) (f : string) :
  existsb is_interim (nodes ++ [mkNode "final-text" f]) = existsb is_interim nodes.
Proof. rewrite existsb_app. cbn. now rewrite !orb_false_r. Qed.

(** One call of [appendTranscript]: a single interim node with the new
    interim text, and the final nodes of before followed by the new one. *)
Lemma appendTranscript_nodes_effect (finalText interimText : string) (nodes : list Node) :
  length (interim_nodes nodes) <= 1 ->
  interim_nodes (appendTranscript_nodes finalText interimText nodes)
  = [mkNode "interim-text" interimText] /\
  final_nodes (appendTranscript_nodes finalText interimText nodes)
  = final_nodes nodes
    ++ (if truthy finalText then [mkNode "final-text" finalText] else []).
Proof.
  intros Hlen. unfold appendTranscript_nodes.
  set (nodes1 := if truthy finalText then nodes ++ [mkNode "final-text" finalText] else nodes).
  assert (Hi : interim_nodes nodes1 = interim_nodes nodes).
  { subst nodes1. destruct (truthy finalText); [|reflexivity].
    rewrite interim_nodes_app. cbn. apply app_nil_r. }
  assert (Hf : final_nodes nodes1
               = final_nodes nodes ++ (if truthy finalText then [mkNode "final-text" finalText] else [])).
  { subst nodes1. destruct (truthy finalText); [|now rewrite app_nil_r].
    now rewrite final_nodes_app. }
  destruct (existsb is_interim nodes1) eqn:E.
  - split; [apply set_interim_interim; [exact E|now rewrite Hi]|].
    now rewrite set_interim_final.
  - split.
    + rewrite interim_nodes_app, (no_interim _ E). reflexivity.
    + rewrite final_nodes_app, Hf. cbn. now rewrite app_nil_r.
Qed.

Lemma append_nil_r (a : string) : String.append a EmptyString = a.
Proof. induction a as [|c a IH]; cbn; [reflexivity|now rewrite IH]. Qed.

Lemma append_assoc (a b c : string) :
  String.append (String.append a b) c = String.append a (String.append b c).
Proof. induction a as [|x a IH]; cbn; [reflexivity|now rewrite IH]. Qed.

Lemma join_cons (a : string) (l : list string) : join (a :: l) = String.append a (join l).
Proof. reflexivity. Qed.

Lemma join_app (l1 l2 : list string) : join (l1 ++ l2) = String.append (join l1) (join l2).
Proof.
  induction l1 as [|a l1 IH]; [reflexivity|].
  rewrite <- app_comm_cons, !join_cons, IH. now rewrite append_assoc.
Qed.

Lemma join_truthy (l : list string) : join (List.filter truthy l) = join l.
Proof.
  induction l as [|a l IH]; [reflexivity|].
  cbn [List.filter]. destruct a as [|c a]; cbn [truthy]; rewrite !join_cons, IH; reflexivity.
Qed.

Lemma view_eq (s : State) : view s = view_nodes (transcript s).
Proof.
  unfold view, view_nodes, join. induction (transcript s) as [|n l IH]; cbn; [reflexivity|].
  now rewrite IH.
Qed.

Lemma view_nodes_silent_interim (nodes : list Node) :
  Forall (fun n => textContent n = EmptyString) (interim_nodes nodes) ->
  view_nodes nodes = join (map textContent (final_nodes nodes)).
Proof.
  unfold view_nodes, interim_nodes, final_nodes.
  induction nodes as [|n rest IH]; [reflexivity|].
  cbn [List.filter map]. destruct (is_interim n); cbn [negb map]; intros H.
  - apply Forall_cons in H as [Hn Hr]. rewrite join_cons, Hn. now apply IH.
  - rewrite !join_cons. now rewrite IH.
Qed.

Lemma append_all_snoc (updates : list (string * string)) (f i : string) (nodes : list Node) :
  append_all (updates ++ [(f, i)]) nodes
  = appendTranscript_nodes f i (append_all updates nodes).
Proof. unfold append_all. now rewrite fold_left_app. Qed.

Lemma committed_snoc (updates : list (string * string)) (f i : string) :
  committed (updates ++ [(f, i)]) = committed updates ++ (if truthy f then [f] else []).
Proof.
  unfold committed. rewrite map_app, List.filter_app. cbn. now destruct (truthy f).
Qed.

(** After any number of calls: the final nodes are those of before followed
    by one node per truthy final text, in call order, and a single interim
    node carries the interim text of the last call. *)
Lemma append_all_effect (updates : list (string * string)) (nodes : list Node) :
  length (interim_nodes nodes) <= 1 ->
  final_nodes (append_all updates nodes)
  = final_nodes nodes ++ map (mkNode "final-text") (committed updates) /\
  length (interim_nodes (append_all updates nodes)) <= 1 /\
  (updates <> [] ->
   interim_nodes (append_all updates nodes)
   = [mkNode "interim-text" (List.last (map snd updates) EmptyString)]).
Proof.
  intros Hlen. induction updates as [|[f i] updates IH] using rev_ind.
  - cbn. rewrite app_nil_r. repeat split; [exact Hlen|congruence].
  - destruct IH as (IHf & IHl & _).
    rewrite append_all_snoc, committed_snoc.
    destruct (appendTranscript_nodes_effect f i _ IHl) as (Ei & Ef).
    rewrite Ei, Ef, IHf, !map_app. cbn [map snd length]. rewrite last_last.
    split; [|split; [auto|reflexivity]].
    rewrite <- app_assoc. f_equal. f_equal. now destruct (truthy f).
Qed.

(** X16: after any calls of [appendTranscript] on an empty display, when the
    last interim text is empty the display reads the final texts in call
    order. *)
Theorem view_without_interim (updates : list (string * string)) :
  List.last (map snd updates) EmptyString = EmptyString ->
  view_nodes (append_all updates []) = join (map fst updates).
Proof.
  intros Hlast. destruct updates as [|u updates]; [reflexivity|].
  destruct (append_all_effect (u :: updates) [] ltac:(cbn; auto)) as (Hf & _ & Hi).
  rewrite view_nodes_silent_interim.
  - rewrite Hf. cbn [final_nodes List.filter app]. rewrite map_map. cbn [textContent].
    rewrite map_id. apply join_truthy.
  - rewrite Hi by discriminate. rewrite Hlast. repeat constructor.
Qed.

Lemma fold_transcripts (rs : list (string * bool)) (a b : string) :
  fold_left
    (fun '(finalTranscript, interimTranscript) '(transcript, isFinal) =>
       if (isFinal : bool) then (String.append finalTranscript transcript, interimTranscript)
       else (finalTranscript, String.append interimTranscript transcript))
    rs (a, b)
  = (String.append a (join (map fst (List.filter snd rs))),
     String.append b (join (map fst (List.filter (fun r => negb (snd r)) rs)))).
Proof.
  revert a b. induction rs as [|[t [|]] rs IH]; intros a b; cbn.
  - now rewrite !append_nil_r.
  - now rewrite IH, append_assoc.
  - now rewrite IH, append_assoc.
Qed.

(** X17: the loop of [recognition.onresult] yields the joined transcripts of
    the final results and of the interim results from [resultIndex] on;
    earlier results do not count. *)
Theorem transcripts_split (resultIndex : nat) (results : list (string * bool)) :
  transcripts resultIndex results
  = (join (final_results resultIndex results), join (interim_results resultIndex results)).
Proof. unfold transcripts. now rewrite fold_transcripts. Qed.


Lemma step_transcript_cases (env : nat -> ContextState) (ev : Event) (s : State) :
  transcript (step env ev s) = transcript s \/
  (ev = CloseClick /\ transcript (step env ev s) = []) \/
  (exists f i, transcript (step env ev s) = appendTranscript_nodes f i (transcript s)).
Proof.
  destruct (keeps_transcript ev) eqn:K; [left; now apply step_transcript|].
  destruct ev; try discriminate K.
  - destruct s as [rec lis rt ac es cs ts nt aw co]. script; cbn.
    repeat case_match; simplify_eq/=; auto.
  - destruct s as [rec lis rt ac es cs ts nt aw co]. script; cbn.
    repeat case_match; simplify_eq/=; eauto.
Qed.

Lemma single_interim_run (env : nat -> ContextState) (tr : list Event) (s : State) :
  length (interim_nodes (transcript s)) <= 1 ->
  length (interim_nodes (transcript (run env tr s))) <= 1.
Proof.
  revert s. induction tr as [|ev tr IH]; intros s Hs; [exact Hs|].
  rewrite run_cons. apply IH.
  destruct (step_transcript_cases env ev s) as [E|[[_ E]|(f & i & E)]]; rewrite E.
  - exact Hs.
  - cbn. auto.
  - destruct (appendTranscript_nodes_effect f i _ Hs) as [Ei _]. rewrite Ei. cbn. auto.
Qed.

(** X14: after every sequence of events the display holds at most one
    interim node. *)
Theorem single_interim_node (env : nat -> ContextState) (tr : list Event) :
  length (interim_nodes (transcript (run env tr init))) <= 1.
Proof. apply single_interim_run. cbn. auto. Qed.

(** X15: as long as the panel is not closed, final nodes are only ever added
    at the end: those present at one moment are a prefix of those present
    later, unchanged. *)
Theorem finals_append_only (env : nat -> ContextState) (tr1 tr2 : list Event) :
  forallb keeps_panel tr2 = true ->
  final_nodes (transcript (run env tr1 init))
    `prefix_of` final_nodes (transcript (run env (tr1 ++ tr2) init)).
Proof.
  intros Hk. unfold run at 2. rewrite fold_left_app. fold (run env tr1 init).
  pose proof (single_interim_run env tr1 init ltac:(cbn; auto)) as Hs.
  generalize dependent (run env tr1 init). intros s Hs.
  change (final_nodes (transcript s) `prefix_of` final_nodes (transcript (run env tr2 s))).
  revert s Hs. induction tr2 as [|ev tr IH]; intros s Hs; [reflexivity|].
  cbn in Hk. apply andb_true_iff in Hk as [Hev Htr]. rewrite run_cons.
  destruct (step_transcript_cases env ev s) as [E|[[-> _]|(f & i & E)]]; try discriminate Hev.
  - etransitivity; [|apply IH; [exact Htr|now rewrite E]]. now rewrite E.
  - destruct (appendTranscript_nodes_effect f i _ Hs) as [Ei Ef].
    etransitivity; [|apply IH; [exact Htr|rewrite E, Ei; cbn; auto]].
    rewrite E, Ef. now apply prefix_app_r.
Qed.

(** X18: after any calls of [appendTranscript] on an empty display, the
    interim node is unique and carries the interim text of the last call, and
    the final nodes are the non-empty final texts in call order. *)
Theorem append_all_history (updates : list (string * string)) (f i : string) :
  interim_nodes (append_all (updates ++ [(f, i)]) [])
  = [mkNode "interim-text" i] /\
  final_nodes (append_all (updates ++ [(f, i)]) [])
  = map (mkNode "final-text") (committed (updates ++ [(f, i)])).
Proof.
  destruct (append_all_effect (updates ++ [(f, i)]) [] ltac:(cbn; auto)) as (Hf & _ & Hi).
  split; [|exact Hf].
  rewrite Hi by (now destruct updates). rewrite map_app. cbn [map snd].
  now rewrite last_last.
Qed.

End TranscriptFacts.

Lemma finals_append_only_witness :
  Transcript.final_nodes (transcript (run contextsRun heard init))
    `prefix_of`
  Transcript.final_nodes
    (transcript (run contextsRun
                   (heard ++ [Engine_result 0 1 [("world"%string, true); ("next"%string, true)];
                              RecordClick]) init)).
Proof.
  apply (finals_append_only contextsRun heard
           [Engine_result 0 1 [("world"%string, true); ("next"%string, true)]; RecordClick]).
  reflexivity.
Defined.

Lemma view_without_interim_witness :
  Transcript.view_nodes
    (Transcript.append_all [("hello "%string, EmptyString); ("world"%string, EmptyString)] [])
  = Transcript.join (map fst [("hello "%string, EmptyString); ("world"%string, EmptyString)]).
Proof.
  apply (view_without_interim [("hello "%string, EmptyString); ("world"%string, EmptyString)]).
  reflexivity.
Defined.

(** ** Dragging and resizing the panel *)

Section PanelFacts.
Import Panel.
Local Open Scope R_scope.

Lemma clamp_bounds (x hi : R) : 0 <= Rmax 0 (Rmin x hi) <= Rmax 0 hi.
Proof.
  unfold Rmax, Rmin. repeat destruct (Rle_dec _ _); lra.
Qed.

Lemma clamp_inside (x hi : R) : 0 <= x <= hi -> Rmax 0 (Rmin x hi) = x.
Proof.
  intros [L U]. unfold Rmax, Rmin. repeat destruct (Rle_dec _ _); lra.
Qed.

(** X19: a panel no larger than the viewport stays entirely inside it while
    it is dragged, wherever the pointer goes, and keeps its size. *)
Theorem drag_stays_in_viewport (w : Viewport) (x0 y0 x y : R) (box : Box) :
  offsetWidth box <= innerWidth w ->
  offsetHeight box <= innerHeight w ->
  let box' := drag_mousemove w x y (header_mousedown x0 y0 box) box in
  0 <= offsetLeft box' /\ offsetLeft box' + offsetWidth box' <= innerWidth w /\
  0 <= offsetTop box' /\ offsetTop box' + offsetHeight box' <= innerHeight w /\
  offsetWidth box' = offsetWidth box /\ offsetHeight box' = offsetHeight box.
Proof.
  intros Hw Hh. cbn.
  pose proof (clamp_bounds (x - (x0 - offsetLeft box)) (innerWidth w - offsetWidth box)) as [A B].
  pose proof (clamp_bounds (y - (y0 - offsetTop box)) (innerHeight w - offsetHeight box)) as [C D].
  rewrite (Rmax_right 0 (innerWidth w - offsetWidth box)) in B by lra.
  rewrite (Rmax_right 0 (innerHeight w - offsetHeight box)) in D by lra.
  repeat split; lra.
Qed.

(** X20: while the target position is inside the viewport the panel moves by
    the pointer's displacement since [mousedown]; after [mouseup] a mouse move
    leaves it where it is. *)
Theorem drag_follows_pointer (w : Viewport) (x0 y0 x y : R) (box : Box) :
  0 <= offsetLeft box + (x - x0) <= innerWidth w - offsetWidth box ->
  0 <= offsetTop box + (y - y0) <= innerHeight w - offsetHeight box ->
  let box' := drag_mousemove w x y (header_mousedown x0 y0 box) box in
  offsetLeft box' = offsetLeft box + (x - x0) /\
  offsetTop box' = offsetTop box + (y - y0) /\
  drag_mousemove w x y (drag_mouseup (header_mousedown x0 y0 box)) box = box.
Proof.
  intros Hx Hy. cbn. split; [|split; [|reflexivity]].
  - rewrite clamp_inside by lra. lra.
  - rewrite clamp_inside by lra. lra.
Qed.

Lemma resize_axis_fits (grows moves : bool) (minimum extent original origin delta : R) :
  minimum <= original -> origin + original <= extent ->
  let '(origin', size') := resize_axis grows moves minimum extent original origin delta in
  minimum <= size' /\ origin' + size' <= extent /\
  (if moves then (grows = false -> origin' + size' = origin + original)
   else origin' = origin) /\
  (grows = false -> moves = false -> size' = original).
Proof.
  intros Hmin Hfit. unfold resize_axis.
  destruct grows, moves; cbn;
    repeat match goal with
           | |- context [Req_dec_T ?a ?b] => destruct (Req_dec_T a b)
           end; cbn;
    unfold Rmax, Rmin in *; repeat destruct (Rle_dec _ _);
    repeat split; intros; try discriminate; try lra.
Qed.

Lemma handles_one_side (pos : string) :
  In pos handles ->
  (includes pos "w" = true -> includes pos "e" = false) /\
  (includes pos "n" = true -> includes pos "s" = false).
Proof.
  intros H. repeat (destruct H as [<-|H]; [cbn; split; congruence|]). destruct H.
Qed.

(** X21: resizing a panel that fits (at least 250 by 200, inside the
    viewport on the right and at the bottom) from any handle gives a panel
    that fits. *)
Theorem resize_keeps_fit (w : Viewport) (pos : string) (x0 y0 x y : R) (box : Box) :
  fits w box ->
  fits w (resize_mousemove w x y (handle_mousedown pos x0 y0 box) box).
Proof.
  intros (Hw & Hh & Hr & Hb). unfold resize_mousemove, handle_mousedown, fits.
  cbn [isResizing currentHandle originalWidth originalHeight originalX originalY
       originalLeft originalTop].
  pose proof (resize_axis_fits (includes pos "e") (includes pos "w") 250 (innerWidth w)
                (offsetWidth box) (offsetLeft box) (x - x0) Hw Hr) as HX.
  pose proof (resize_axis_fits (includes pos "s") (includes pos "n") 200 (innerHeight w)
                (offsetHeight box) (offsetTop box) (y - y0) Hh Hb) as HY.
  destruct (resize_axis (includes pos "e") _ _ _ _ _ _) as [l wd].
  destruct (resize_axis (includes pos "s") _ _ _ _ _ _) as [t h].
  cbn. tauto.
Qed.

(** X22: resizing a fitting panel from one of the eight handles keeps the
    side opposite to the handle where it is: a west handle keeps the right
    edge and any other the left edge, a north handle keeps the bottom edge and
    any other the top edge; a handle without east or west keeps the width, one
    without north or south the height. *)
Theorem resize_anchors_opposite_side (w : Viewport) (pos : string) (x0 y0 x y : R)
    (box : Box) :
  fits w box -> In pos handles ->
  let box' := resize_mousemove w x y (handle_mousedown pos x0 y0 box) box in
  (if includes pos "w"
   then offsetLeft box' + offsetWidth box' = offsetLeft box + offsetWidth box
   else offsetLeft box' = offsetLeft box) /\
  (if includes pos "n"
   then offsetTop box' + offsetHeight box' = offsetTop box + offsetHeight box
   else offsetTop box' = offsetTop box) /\
  (includes pos "e" || includes pos "w" = false -> offsetWidth box' = offsetWidth box) /\
  (includes pos "s" || includes pos "n" = false -> offsetHeight box' = offsetHeight box).
Proof.
  intros (Hw & Hh & Hr & Hb) Hpos. destruct (handles_one_side pos Hpos) as [Hwe Hns].
  unfold resize_mousemove, handle_mousedown.
  cbn [isResizing currentHandle originalWidth originalHeight originalX originalY
       originalLeft originalTop].
  pose proof (resize_axis_fits (includes pos "e") (includes pos "w") 250 (innerWidth w)
                (offsetWidth box) (offsetLeft box) (x - x0) Hw Hr) as HX.
  pose proof (resize_axis_fits (includes pos "s") (includes pos "n") 200 (innerHeight w)
                (offsetHeight box) (offsetTop box) (y - y0) Hh Hb) as HY.
  destruct (resize_axis (includes pos "e") _ _ _ _ _ _) as [l wd].
  destruct (resize_axis (includes pos "s") _ _ _ _ _ _) as [t h].
  cbn. destruct HX as (_ & _ & HX1 & HX2). destruct HY as (_ & _ & HY1 & HY2).
  destruct (includes pos "w"), (includes pos "n"), (includes pos "e"), (includes pos "s");
    cbn; repeat split; intros; try discriminate; auto.
Qed.

End PanelFacts.

Lemma drag_stays_in_viewport_witness :
  let box' := Panel.drag_mousemove (Panel.mkViewport 1280 720) 2000 (-50)
                (Panel.header_mousedown 980 500 (Panel.mkBox 960 480 300 220))
                (Panel.mkBox 960 480 300 220) in
  (0 <= Panel.offsetLeft box')%R /\
  (Panel.offsetLeft box' + Panel.offsetWidth box' <= 1280)%R /\
  (0 <= Panel.offsetTop box')%R /\
  (Panel.offsetTop box' + Panel.offsetHeight box' <= 720)%R /\
  Panel.offsetWidth box' = 300%R /\ Panel.offsetHeight box' = 220%R.
Proof.
  apply (drag_stays_in_viewport (Panel.mkViewport 1280 720) 980 500 2000 (-50)
           (Panel.mkBox 960 480 300 220)); cbn; lra.
Defined.

Lemma drag_follows_pointer_witness :
  let box' := Panel.drag_mousemove (Panel.mkViewport 1280 720) 480 300
                (Panel.header_mousedown 980 500 (Panel.mkBox 960 480 300 220))
                (Panel.mkBox 960 480 300 220) in
  Panel.offsetLeft box' = (960 + (480 - 980))%R /\
  Panel.offsetTop box' = (480 + (300 - 500))%R /\
  Panel.drag_mousemove (Panel.mkViewport 1280 720) 480 300
    (Panel.drag_mouseup (Panel.header_mousedown 980 500 (Panel.mkBox 960 480 300 220)))
    (Panel.mkBox 960 480 300 220)
  = Panel.mkBox 960 480 300 220.
Proof.
  apply (drag_follows_pointer (Panel.mkViewport 1280 720) 980 500 480 300
           (Panel.mkBox 960 480 300 220)); cbn; lra.
Defined.

Lemma resize_keeps_fit_witness :
  Panel.fits (Panel.mkViewport 1280 720)
    (Panel.resize_mousemove (Panel.mkViewport 1280 720) 100 900
       (Panel.handle_mousedown "nw" 960 480 (Panel.mkBox 960 480 300 220))
       (Panel.mkBox 960 480 300 220)).
Proof.
  apply (resize_keeps_fit (Panel.mkViewport 1280 720) "nw" 960 480 100 900
           (Panel.mkBox 960 480 300 220)).
  unfold Panel.fits. cbn. lra.
Defined.

Lemma resize_anchors_opposite_side_witness :
  let box' := Panel.resize_mousemove (Panel.mkViewport 1280 720) 100 900
                (Panel.handle_mousedown "nw" 960 480 (Panel.mkBox 960 480 300 220))
                (Panel.mkBox 960 480 300 220) in
  (if Panel.includes "nw" "w"
   then (Panel.offsetLeft box' + Panel.offsetWidth box' = 960 + 300)%R
   else Panel.offsetLeft box' = 960%R) /\
  (if Panel.includes "nw" "n"
   then (Panel.offsetTop box' + Panel.offsetHeight box' = 480 + 220)%R
   else Panel.offsetTop box' = 480%R) /\
  (Panel.includes "nw" "e" || Panel.includes "nw" "w" = false ->
   Panel.offsetWidth box' = 300%R) /\
  (Panel.includes "nw" "s" || Panel.includes "nw" "n" = false ->
   Panel.offsetHeight box' = 220%R).
Proof.
  apply (resize_anchors_opposite_side (Panel.mkViewport 1280 720) "nw" 960 480 100 900
           (Panel.mkBox 960 480 300 220)).
  - unfold Panel.fits. cbn. lra.
  - simpl. tauto.
Defined.

(** ** The popup page *)

Section PopupFacts.
Import Popup.
Local Open Scope string_scope.

Lemma label_sound_step (ev : Popup.Event) (p : Page) :
  label_sound p -> label_sound (Popup.step ev p).
Proof.
  intros H. destruct p as [r b t]. unfold label_sound in *. cbn in *.
  destruct ev; unfold Popup.step, startButton_click, initializeSpeechRecognition,
    onresult, onerror, onend, set_status; cbn.
  all: destruct r as [[]|]; cbn; try exact H; try discriminate.
  all: try (destruct (String.eqb b "Start Recording") eqn:E; cbn;
            [apply String.eqb_eq in E; subst b|]; try discriminate; eauto).
  all: try (intros _; eexists; split; reflexivity).
Qed.

(** X23: in the popup, whenever the button reads 'Stop Recording' the
    recognition object exists and is started, after every sequence of clicks
    and engine events. *)
Theorem popup_label_sound (label : string) (tr : list Popup.Event) :
  label <> "Stop Recording" ->
  label_sound (Popup.run tr (loaded label)).
Proof.
  intros Hl.
  assert (G : forall p, label_sound p -> label_sound (Popup.run tr p)).
  { induction tr as [|ev tr IH]; intros p Hp; [exact Hp|].
    cbn. apply IH. now apply label_sound_step. }
  apply G. intros E. cbn in E. congruence.
Qed.

End PopupFacts.

Lemma popup_label_sound_witness :
  Popup.label_sound
    (Popup.run [Popup.Click; Popup.Started; Popup.Click; Popup.Click; Popup.Ended]
       (Popup.loaded "Start Recording")).
Proof.
  apply (popup_label_sound "Start Recording"
           [Popup.Click; Popup.Started; Popup.Click; Popup.Click; Popup.Ended]).
  discriminate.
Defined.
